(** * Integer polynomial expressions: evaluation, simplification, rendering

    A shallow embedding of [polynomial.py].  The six classes [X], [Int],
    [Add], [Mul], [Sub] and [Div] become the constructors of one inductive
    type; Python integers are unbounded, hence [Z]; a raised exception is
    the [Raise] branch of a small error monad.  Attribute [i] of an [Int]
    is taken to hold an integer, and the interpreter's limit on recursion
    depth is not modelled. *)

From Stdlib Require Import ZArith Bool List Ascii String Lia.
From Stdlib Require Import DecimalString.
Import ListNotations.

Local Open Scope string_scope.
Local Open Scope Z_scope.

(** ** Exceptions and the error monad *)

(** [ZeroDivisionError] is raised by [Div.evaluate] and by the integer
    operator [//]; [AttributeError] is what reading the attribute [.i] of an
    object that is not an [Int] raises. *)
Inductive exn : Type :=
| ZeroDivisionError
| AttributeError.

Inductive result (A : Type) : Type :=
| Ok (a : A)
| Raise (e : exn).

Arguments Ok {A} a.
Arguments Raise {A} e.

Definition bind {A B : Type} (m : result A) (k : A -> result B) : result B :=
  match m with
  | Ok a => k a
  | Raise e => Raise e
  end.

Notation "x <- m ;; k" := (bind m (fun x => k))
  (at level 61, m at next level, right associativity).

(** ** The expression classes *)

Inductive expr : Type :=
| X : expr
| Int (i : Z) : expr
| Add (p1 p2 : expr) : expr
| Mul (p1 p2 : expr) : expr
| Sub (p1 p2 : expr) : expr
| Div (p1 p2 : expr) : expr.

(** [p.i]: only [Int] objects carry the attribute. *)
Definition get_i (p : expr) : result Z :=
  match p with
  | Int i => Ok i
  | _ => Raise AttributeError
  end.

(** [a // b] on Python integers: floor division, raising on a zero divisor. *)
Definition floordiv (a b : Z) : result Z :=
  if b =? 0 then Raise ZeroDivisionError else Ok (a / b).

(** [isinstance(p, Int)] *)
Definition is_Int (p : expr) : bool :=
  match p with
  | Int _ => true
  | _ => false
  end.

(** [isinstance(p, Int) and p.i == k] *)
Definition is_Int_eq (p : expr) (k : Z) : bool :=
  match p with
  | Int i => i =? k
  | _ => false
  end.

(** [isinstance(p, Add)] and [isinstance(p, (Add, Sub))] *)
Definition is_Add (p : expr) : bool :=
  match p with
  | Add _ _ => true
  | _ => false
  end.

Definition is_Add_or_Sub (p : expr) : bool :=
  match p with
  | Add _ _ | Sub _ _ => true
  | _ => false
  end.

(** ** [evaluate] *)

Fixpoint evaluate (p : expr) (x_value : Z) : result expr :=
  match p with
  | X => Ok (Int x_value)
  | Int i => Ok (Int i)
  | Add p1 p2 =>
      v1 <- evaluate p1 x_value ;;
      v2 <- evaluate p2 x_value ;;
      i1 <- get_i v1 ;;
      i2 <- get_i v2 ;;
      Ok (Int (i1 + i2))
  | Mul p1 p2 =>
      v1 <- evaluate p1 x_value ;;
      v2 <- evaluate p2 x_value ;;
      i1 <- get_i v1 ;;
      i2 <- get_i v2 ;;
      Ok (Int (i1 * i2))
  | Sub p1 p2 =>
      v1 <- evaluate p1 x_value ;;
      v2 <- evaluate p2 x_value ;;
      i1 <- get_i v1 ;;
      i2 <- get_i v2 ;;
      Ok (Int (i1 - i2))
  | Div p1 p2 =>
      v1 <- evaluate p1 x_value ;;
      v2 <- evaluate p2 x_value ;;
      d <- get_i v2 ;;
      if d =? 0 then Raise ZeroDivisionError
      else
        i1 <- get_i v1 ;;
        i2 <- get_i v2 ;;
        q <- floordiv i1 i2 ;;
        Ok (Int q)
  end.

(** ** [simplify] *)

(** The bodies of the four [simplify] methods after the two recursive calls,
    as functions of the simplified operands [s1] and [s2]. *)

Definition Add_simplify (s1 s2 : expr) : result expr :=
  if is_Int_eq s1 0 then Ok s2
  else if is_Int_eq s2 0 then Ok s1
  else
    match s1, s2 with
    | Int i1, Int i2 => Ok (Int (i1 + i2))
    | _, _ => Ok (Add s1 s2)
    end.

Definition Mul_simplify (s1 s2 : expr) : result expr :=
  if is_Int_eq s1 0 || is_Int_eq s2 0 then Ok (Int 0)
  else if is_Int_eq s1 1 then Ok s2
  else if is_Int_eq s2 1 then Ok s1
  else
    match s1, s2 with
    | Int i1, Int i2 => Ok (Int (i1 * i2))
    | _, _ => Ok (Mul s1 s2)
    end.

Definition Sub_simplify (s1 s2 : expr) : result expr :=
  if is_Int_eq s2 0 then Ok s1
  else
    match s1, s2 with
    | Int i1, Int i2 => Ok (Int (i1 - i2))
    | _, _ => Ok (Sub s1 s2)
    end.

Definition Div_simplify (s1 s2 : expr) : result expr :=
  if is_Int_eq s1 0 then
    if is_Int_eq s2 0 then Ok (Div s1 s2) else Ok (Int 0)
  else if is_Int_eq s2 1 then Ok s1
  else
    match s1, s2 with
    | Int i1, Int i2 =>
        if i2 =? 0 then Ok (Div s1 s2)
        else q <- floordiv i1 i2 ;; Ok (Int q)
    | _, _ => Ok (Div s1 s2)
    end.

Fixpoint simplify (p : expr) : result expr :=
  match p with
  | X => Ok X
  | Int i => Ok (Int i)
  | Add p1 p2 =>
      s1 <- simplify p1 ;; s2 <- simplify p2 ;; Add_simplify s1 s2
  | Mul p1 p2 =>
      s1 <- simplify p1 ;; s2 <- simplify p2 ;; Mul_simplify s1 s2
  | Sub p1 p2 =>
      s1 <- simplify p1 ;; s2 <- simplify p2 ;; Sub_simplify s1 s2
  | Div p1 p2 =>
      s1 <- simplify p1 ;; s2 <- simplify p2 ;; Div_simplify s1 s2
  end.

(** ** [__repr__] *)

(** [str(i)] for a Python integer: decimal digits, a leading [-] when
    negative. *)
Definition str (i : Z) : string := NilZero.string_of_int (Z.to_int i).

(** The local helper [fmt] of [Mul.__repr__] and [Div.__repr__], given the
    rendering function for the operand. *)
Definition fmt (repr : expr -> string) (p : expr) : string :=
  if is_Add_or_Sub p then "( " ++ repr p ++ " )" else repr p.

Fixpoint render (p : expr) : string :=
  match p with
  | X => "X"
  | Int i => str i
  | Add p1 p2 => render p1 ++ " + " ++ render p2
  | Mul p1 p2 => fmt render p1 ++ " * " ++ fmt render p2
  | Sub p1 p2 =>
      let left := if is_Add p1 then "( " ++ render p1 ++ " )" else render p1 in
      let right :=
        if is_Add_or_Sub p2 then "( " ++ render p2 ++ " )" else render p2 in
      left ++ " - " ++ right
  | Div p1 p2 => fmt render p1 ++ " / " ++ fmt render p2
  end.

(** ** Reduced trees *)

(** A node at which one of the rewriting rules would still fire: an [Add]
    with a constant-zero operand or two constant operands; a [Sub] with a
    constant-zero right operand or two constant operands; a [Mul] with a
    constant-zero or constant-one operand or two constant operands; a [Div]
    with a constant-zero numerator over anything but constant zero, with a
    constant-one denominator, or with two constants and a non-zero
    denominator. *)
Definition reducible (p : expr) : bool :=
  match p with
  | X | Int _ => false
  | Add a b => is_Int_eq a 0 || is_Int_eq b 0 || (is_Int a && is_Int b)
  | Sub a b => is_Int_eq b 0 || (is_Int a && is_Int b)
  | Mul a b =>
      is_Int_eq a 0 || is_Int_eq b 0 || is_Int_eq a 1 || is_Int_eq b 1
      || (is_Int a && is_Int b)
  | Div a b =>
      (is_Int_eq a 0 && negb (is_Int_eq b 0))
      || is_Int_eq b 1
      || (is_Int a && is_Int b && negb (is_Int_eq b 0))
  end.

(** [subtree u t]: [u] occurs in [t] (possibly as [t] itself). *)
Inductive subtree (u : expr) : expr -> Prop :=
| subtree_refl : subtree u u
| subtree_Add_l a b : subtree u a -> subtree u (Add a b)
| subtree_Add_r a b : subtree u b -> subtree u (Add a b)
| subtree_Mul_l a b : subtree u a -> subtree u (Mul a b)
| subtree_Mul_r a b : subtree u b -> subtree u (Mul a b)
| subtree_Sub_l a b : subtree u a -> subtree u (Sub a b)
| subtree_Sub_r a b : subtree u b -> subtree u (Sub a b)
| subtree_Div_l a b : subtree u a -> subtree u (Div a b)
| subtree_Div_r a b : subtree u b -> subtree u (Div a b).

(** The executable form of "no subtree is reducible". *)
Fixpoint normal (p : expr) : bool :=
  match p with
  | X | Int _ => true
  | Add a b | Mul a b | Sub a b | Div a b =>
      negb (reducible p) && normal a && normal b
  end.

(** A composite node both of whose operands are constants. *)
Definition all_constant (p : expr) : bool :=
  match p with
  | X | Int _ => false
  | Add a b | Mul a b | Sub a b | Div a b => is_Int a && is_Int b
  end.

(** [q] is the floor of the rational [a / b]: [q <= a / b < q + 1], written
    without fractions for either sign of [b]. *)
Definition is_floor_quotient (a b q : Z) : Prop :=
  (0 < b -> b * q <= a < b * (q + 1)) /\
  (b < 0 -> b * (q + 1) < a <= b * q).

(** [paren c p]: the rendering of operand [p], wrapped in "( " and " )"
    exactly when [c] holds. *)
Definition paren (c : bool) (p : expr) : string :=
  if c then "( " ++ render p ++ " )" else render p.

(** ** The object store

    The same [evaluate], over a store of objects: an expression is a
    reference to an object whose operand attributes hold references, and
    each call of the constructor [Int] allocates a new object.  The methods
    contain no attribute assignment outside [__init__], so allocation is the
    only operation of the model that changes the store. *)

Definition addr : Type := nat.

Inductive obj : Type :=
| OX : obj
| OInt (i : Z) : obj
| OAdd (p1 p2 : addr) : obj
| OMul (p1 p2 : addr) : obj
| OSub (p1 p2 : addr) : obj
| ODiv (p1 p2 : addr) : obj.

Definition heap : Type := list obj.

(** A computation on the store: the store afterwards and the value returned
    or the exception raised; [None] when the recursion budget is exhausted
    or a reference points to no object. *)
Definition M (A : Type) : Type := heap -> option (heap * result A).

Definition mret {A : Type} (a : A) : M A := fun h => Some (h, Ok a).

Definition mraise {A : Type} (e : exn) : M A := fun h => Some (h, Raise e).

Definition mbind {A B : Type} (m : M A) (k : A -> M B) : M B :=
  fun h =>
    match m h with
    | None => None
    | Some (h', Ok a) => k a h'
    | Some (h', Raise e) => Some (h', Raise e)
    end.

Notation "x <~ m ;; k" := (mbind m (fun x => k))
  (at level 61, m at next level, right associativity).

(** [Int(i)]: a new object at the next free address. *)
Definition new_Int (i : Z) : M addr :=
  fun h => Some ((h ++ [OInt i])%list, Ok (List.length h)).

(** [v.i] on a reference. *)
Definition attr_i (v : addr) : M Z :=
  fun h =>
    match nth_error h v with
    | Some (OInt i) => Some (h, Ok i)
    | Some _ => Some (h, Raise AttributeError)
    | None => None
    end.

(** [a // b] as a computation. *)
Definition mfloordiv (a b : Z) : M Z :=
  fun h => Some (h, floordiv a b).

Fixpoint evaluate_in (fuel : nat) (self : addr) (x_value : Z) : M addr :=
  match fuel with
  | O => fun _ => None
  | S n =>
      fun h =>
        match nth_error h self with
        | None => None
        | Some OX => new_Int x_value h
        | Some (OInt i) => new_Int i h
        | Some (OAdd p1 p2) =>
            (v1 <~ evaluate_in n p1 x_value ;;
             v2 <~ evaluate_in n p2 x_value ;;
             i1 <~ attr_i v1 ;;
             i2 <~ attr_i v2 ;;
             new_Int (i1 + i2)) h
        | Some (OMul p1 p2) =>
            (v1 <~ evaluate_in n p1 x_value ;;
             v2 <~ evaluate_in n p2 x_value ;;
             i1 <~ attr_i v1 ;;
             i2 <~ attr_i v2 ;;
             new_Int (i1 * i2)) h
        | Some (OSub p1 p2) =>
            (v1 <~ evaluate_in n p1 x_value ;;
             v2 <~ evaluate_in n p2 x_value ;;
             i1 <~ attr_i v1 ;;
             i2 <~ attr_i v2 ;;
             new_Int (i1 - i2)) h
        | Some (ODiv p1 p2) =>
            (v1 <~ evaluate_in n p1 x_value ;;
             v2 <~ evaluate_in n p2 x_value ;;
             d <~ attr_i v2 ;;
             if d =? 0 then mraise ZeroDivisionError
             else
               i1 <~ attr_i v1 ;;
               i2 <~ attr_i v2 ;;
               q <~ mfloordiv i1 i2 ;;
               new_Int q) h
        end
  end.

(** [rep h l t]: in the store [h] the reference [l] denotes the tree [t]. *)
Fixpoint rep (h : heap) (l : addr) (t : expr) : Prop :=
  match t with
  | X => nth_error h l = Some OX
  | Int i => nth_error h l = Some (OInt i)
  | Add a b =>
      exists la lb,
        nth_error h l = Some (OAdd la lb) /\ rep h la a /\ rep h lb b
  | Mul a b =>
      exists la lb,
        nth_error h l = Some (OMul la lb) /\ rep h la a /\ rep h lb b
  | Sub a b =>
      exists la lb,
        nth_error h l = Some (OSub la lb) /\ rep h la a /\ rep h lb b
  | Div a b =>
      exists la lb,
        nth_error h l = Some (ODiv la lb) /\ rep h la a /\ rep h lb b
  end.

(** Nesting depth of a tree: the recursion budget its evaluation needs. *)
Fixpoint depth (t : expr) : nat :=
  match t with
  | X | Int _ => 1
  | Add a b | Mul a b | Sub a b | Div a b => S (Nat.max (depth a) (depth b))
  end.

(** The outcome [r] of a run that ended in store [h] is the outcome [res]
    of the pure [evaluate]: the same exception, or a reference to an [Int]
    object holding the same integer. *)
Definition agrees (h : heap) (r : result addr) (res : result expr) : Prop :=
  match res, r with
  | Ok v, Ok l => exists i, v = Int i /\ nth_error h l = Some (OInt i)
  | Raise e, Raise e' => e = e'
  | _, _ => False
  end.

(** [runs_as m h res]: started in store [h], the computation [m] ends, its
    store is [h] extended by newly allocated objects and nothing else, and
    its outcome is [res]. *)
Definition runs_as (m : M addr) (h : heap) (res : result expr) : Prop :=
  exists (hn : heap) (r : result addr),
    m h = Some ((h ++ hn)%list, r) /\ agrees (h ++ hn)%list r res.

(** Building the objects of a tree, children first, as the nested
    constructor calls of a caller do; returns the reference to the root. *)
Fixpoint build (t : expr) (h : heap) : heap * addr :=
  match t with
  | X => ((h ++ [OX])%list, List.length h)
  | Int i => ((h ++ [OInt i])%list, List.length h)
  | Add a b =>
      let '(h1, la) := build a h in
      let '(h2, lb) := build b h1 in
      ((h2 ++ [OAdd la lb])%list, List.length h2)
  | Mul a b =>
      let '(h1, la) := build a h in
      let '(h2, lb) := build b h1 in
      ((h2 ++ [OMul la lb])%list, List.length h2)
  | Sub a b =>
      let '(h1, la) := build a h in
      let '(h2, lb) := build b h1 in
      ((h2 ++ [OSub la lb])%list, List.length h2)
  | Div a b =>
      let '(h1, la) := build a h in
      let '(h2, lb) := build b h1 in
      ((h2 ++ [ODiv la lb])%list, List.length h2)
  end.

(** ** Measures and syntactic classes of trees *)

(** Number of nodes. *)
Fixpoint size (t : expr) : nat :=
  match t with
  | X | Int _ => 1
  | Add a b | Mul a b | Sub a b | Div a b => S (size a + size b)
  end.

(** No [Div] node anywhere in the tree. *)
Fixpoint div_free (t : expr) : bool :=
  match t with
  | X | Int _ => true
  | Add a b | Mul a b | Sub a b => div_free a && div_free b
  | Div _ _ => false
  end.

(** No [X] leaf anywhere in the tree. *)
Fixpoint var_free (t : expr) : bool :=
  match t with
  | X => false
  | Int _ => true
  | Add a b | Mul a b | Sub a b | Div a b => var_free a && var_free b
  end.

(** Every rule returns one of its operands, a constant, or the node rebuilt
    from the operands. *)
Inductive rule_result (s1 s2 node : expr) : expr -> Prop :=
| rule_left : rule_result s1 s2 node s1
| rule_right : rule_result s1 s2 node s2
| rule_const i : rule_result s1 s2 node (Int i)
| rule_node : rule_result s1 s2 node node.

(** ** Parentheses in a rendering *)

(** Number of occurrences of the character [c] in [s]. *)
Fixpoint occurrences (c : ascii) (s : string) : nat :=
  match s with
  | EmptyString => 0%nat
  | String d s' => ((if Ascii.eqb c d then 1 else 0) + occurrences c s')%nat
  end.

(** Reading [s] from left to right with [d] parentheses open: the number
    open at the end, or [None] if a closing parenthesis comes with none
    open. *)
Fixpoint nesting (s : string) (d : nat) : option nat :=
  match s with
  | EmptyString => Some d
  | String c s' =>
      if Ascii.eqb c "("%char then nesting s' (S d)
      else if Ascii.eqb c ")"%char then
        match d with
        | O => None
        | S d' => nesting s' d'
        end
      else nesting s' d
  end.

(** ** What a run allocates *)

Definition is_OInt (o : obj) : bool :=
  match o with
  | OInt _ => true
  | _ => false
  end.

(** [runs_counting m h res k]: as [runs_as m h res], and the new objects
    are all [Int] objects: exactly [k] of them when a reference is
    returned, which is then the last object of the store, and fewer than
    [k] when an exception is raised. *)
Definition runs_counting (m : M addr) (h : heap) (res : result expr)
    (k : nat) : Prop :=
  exists (hn : heap) (r : result addr),
    m h = Some ((h ++ hn)%list, r) /\
    agrees (h ++ hn)%list r res /\
    Forall (fun o => is_OInt o = true) hn /\
    match r with
    | Ok l => List.length hn = k /\ S l = List.length (h ++ hn)%list
    | Raise _ => (List.length hn < k)%nat
    end.

(** ** [simplify] on the object store *)

(** A constructor call [Add(s1, s2)], [Mul(s1, s2)], ...: a new object at
    the next free address. *)
Definition new_obj (o : obj) : M addr :=
  fun h => Some ((h ++ [o])%list, Ok (List.length h)).

(** [isinstance(s, Int)] on a reference. *)
Definition is_Int_at (s : addr) : M bool :=
  fun h =>
    match nth_error h s with
    | Some o => Some (h, Ok (is_OInt o))
    | None => None
    end.

(** [isinstance(s, Int) and s.i == k] on a reference. *)
Definition is_Int_eq_at (s : addr) (k : Z) : M bool :=
  c <~ is_Int_at s ;;
  if c then i <~ attr_i s ;; mret (i =? k) else mret false.

(** [isinstance(s1, Int) and isinstance(s2, Int)] on references. *)
Definition both_Int_at (s1 s2 : addr) : M bool :=
  c <~ is_Int_at s1 ;; if c then is_Int_at s2 else mret false.

Definition Add_simplify_at (s1 s2 : addr) : M addr :=
  z1 <~ is_Int_eq_at s1 0 ;;
  if z1 then mret s2
  else
    z2 <~ is_Int_eq_at s2 0 ;;
    if z2 then mret s1
    else
      c <~ both_Int_at s1 s2 ;;
      if c then i1 <~ attr_i s1 ;; i2 <~ attr_i s2 ;; new_Int (i1 + i2)
      else new_obj (OAdd s1 s2).

Definition Mul_simplify_at (s1 s2 : addr) : M addr :=
  z1 <~ is_Int_eq_at s1 0 ;;
  z <~ (if z1 then mret true else is_Int_eq_at s2 0) ;;
  if z then new_Int 0
  else
    o1 <~ is_Int_eq_at s1 1 ;;
    if o1 then mret s2
    else
      o2 <~ is_Int_eq_at s2 1 ;;
      if o2 then mret s1
      else
        c <~ both_Int_at s1 s2 ;;
        if c then i1 <~ attr_i s1 ;; i2 <~ attr_i s2 ;; new_Int (i1 * i2)
        else new_obj (OMul s1 s2).

Definition Sub_simplify_at (s1 s2 : addr) : M addr :=
  z2 <~ is_Int_eq_at s2 0 ;;
  if z2 then mret s1
  else
    c <~ both_Int_at s1 s2 ;;
    if c then i1 <~ attr_i s1 ;; i2 <~ attr_i s2 ;; new_Int (i1 - i2)
    else new_obj (OSub s1 s2).

Definition Div_simplify_at (s1 s2 : addr) : M addr :=
  z1 <~ is_Int_eq_at s1 0 ;;
  if z1 then
    z2 <~ is_Int_eq_at s2 0 ;;
    if z2 then new_obj (ODiv s1 s2) else new_Int 0
  else
    o2 <~ is_Int_eq_at s2 1 ;;
    if o2 then mret s1
    else
      c <~ both_Int_at s1 s2 ;;
      if c then
        d <~ attr_i s2 ;;
        if d =? 0 then new_obj (ODiv s1 s2)
        else
          i1 <~ attr_i s1 ;;
          i2 <~ attr_i s2 ;;
          q <~ mfloordiv i1 i2 ;;
          new_Int q
      else new_obj (ODiv s1 s2).

Fixpoint simplify_in (fuel : nat) (self : addr) : M addr :=
  match fuel with
  | O => fun _ => None
  | S n =>
      fun h =>
        match nth_error h self with
        | None => None
        | Some OX => mret self h
        | Some (OInt _) => mret self h
        | Some (OAdd p1 p2) =>
            (s1 <~ simplify_in n p1 ;;
             s2 <~ simplify_in n p2 ;;
             Add_simplify_at s1 s2) h
        | Some (OMul p1 p2) =>
            (s1 <~ simplify_in n p1 ;;
             s2 <~ simplify_in n p2 ;;
             Mul_simplify_at s1 s2) h
        | Some (OSub p1 p2) =>
            (s1 <~ simplify_in n p1 ;;
             s2 <~ simplify_in n p2 ;;
             Sub_simplify_at s1 s2) h
        | Some (ODiv p1 p2) =>
            (s1 <~ simplify_in n p1 ;;
             s2 <~ simplify_in n p2 ;;
             Div_simplify_at s1 s2) h
        end
  end.

(** [returns_tree m h r k]: started in store [h], the computation [m]
    returns a reference that denotes the tree [r] in the store it leaves,
    which is [h] extended by at most [k] new objects. *)
Definition returns_tree (m : M addr) (h : heap) (r : expr) (k : nat) : Prop :=
  exists (hn : heap) (l : addr),
    m h = Some ((h ++ hn)%list, Ok l) /\
    rep (h ++ hn)%list l r /\
    (List.length hn <= k)%nat.

(** * Properties *)

(** ** Type tests *)

Lemma is_Int_eq_true (p : expr) (k : Z) : is_Int_eq p k = true <-> p = Int k.
Proof.
  split.
  - destruct p; simpl; try discriminate.
    intros H; apply Z.eqb_eq in H; now subst.
  - intros ->; simpl; apply Z.eqb_refl.
Qed.

Lemma is_Int_true (p : expr) : is_Int p = true <-> exists i, p = Int i.
Proof.
  split.
  - destruct p; simpl; try discriminate; eauto.
  - intros [i ->]; reflexivity.
Qed.

Lemma match_not_both_Int {A : Type} (s1 s2 : expr) (f : Z -> Z -> A) (d : A) :
  is_Int s1 && is_Int s2 = false ->
  match s1, s2 with
  | Int i1, Int i2 => f i1 i2
  | _, _ => d
  end = d.
Proof. destruct s1, s2; simpl; intros H; try reflexivity; discriminate H. Qed.

Lemma floordiv_nonzero (a b : Z) : b <> 0 -> floordiv a b = Ok (a / b).
Proof.
  intros H; unfold floordiv.
  destruct (Z.eqb_spec b 0); [contradiction | reflexivity].
Qed.

(** ** [evaluate] returns an [Int] or raises [ZeroDivisionError] *)

Lemma evaluate_cases (p : expr) (x : Z) :
  (exists i, evaluate p x = Ok (Int i)) \/
  evaluate p x = Raise ZeroDivisionError.
Proof.
  induction p as [ | i | p1 IH1 p2 IH2 | p1 IH1 p2 IH2
                 | p1 IH1 p2 IH2 | p1 IH1 p2 IH2 ]; simpl.
  1, 2: left; eauto.
  1, 2, 3:
    destruct IH1 as [[i1 ->] | ->]; simpl; [ | now right ];
    destruct IH2 as [[i2 ->] | ->]; simpl; [ | now right ];
    left; eauto.
  destruct IH1 as [[i1 ->] | ->]; simpl; [ | now right ].
  destruct IH2 as [[i2 ->] | ->]; simpl; [ | now right ].
  unfold floordiv.
  destruct (i2 =? 0); simpl; [now right | left; eauto].
Qed.

Lemma evaluate_Ok_Int (p : expr) (x : Z) (v : expr) :
  evaluate p x = Ok v -> exists i, v = Int i.
Proof.
  intros H.
  destruct (evaluate_cases p x) as [[i Hi] | Hr]; rewrite H in *.
  - exists i; congruence.
  - discriminate Hr.
Qed.

(** ** The evaluation equations of the four operators *)

Section EvaluateOperands.
Variables (a b : expr) (x va vb : Z).
Hypothesis Ha : evaluate a x = Ok (Int va).
Hypothesis Hb : evaluate b x = Ok (Int vb).

Lemma evaluate_Add_values : evaluate (Add a b) x = Ok (Int (va + vb)).
Proof. simpl; rewrite Ha, Hb; reflexivity. Qed.

Lemma evaluate_Sub_values : evaluate (Sub a b) x = Ok (Int (va - vb)).
Proof. simpl; rewrite Ha, Hb; reflexivity. Qed.

Lemma evaluate_Mul_values : evaluate (Mul a b) x = Ok (Int (va * vb)).
Proof. simpl; rewrite Ha, Hb; reflexivity. Qed.

Lemma evaluate_Div_zero :
  vb = 0 -> evaluate (Div a b) x = Raise ZeroDivisionError.
Proof. intros ->; simpl; rewrite Ha, Hb; reflexivity. Qed.

Lemma evaluate_Div_values :
  vb <> 0 -> evaluate (Div a b) x = Ok (Int (va / vb)).
Proof.
  intros H; simpl; rewrite Ha, Hb; simpl.
  destruct (Z.eqb_spec vb 0) as [E | _]; [contradiction | ].
  simpl; rewrite (floordiv_nonzero _ _ H); reflexivity.
Qed.
End EvaluateOperands.

(** A failing operand makes the node fail with the same exception, the left
    operand being evaluated first. *)
Lemma evaluate_raise_left (a b : expr) (x : Z) (e : exn) :
  evaluate a x = Raise e ->
  evaluate (Add a b) x = Raise e /\ evaluate (Sub a b) x = Raise e /\
  evaluate (Mul a b) x = Raise e /\ evaluate (Div a b) x = Raise e.
Proof. intros H; simpl; rewrite H; simpl; auto. Qed.

Lemma evaluate_raise_right (a b : expr) (x va : Z) (e : exn) :
  evaluate a x = Ok (Int va) -> evaluate b x = Raise e ->
  evaluate (Add a b) x = Raise e /\ evaluate (Sub a b) x = Raise e /\
  evaluate (Mul a b) x = Raise e /\ evaluate (Div a b) x = Raise e.
Proof. intros Ha Hb; simpl; rewrite Ha, Hb; simpl; auto. Qed.

Lemma evaluate_operands (a b : expr) (x : Z) (v : expr) :
  evaluate (Add a b) x = Ok v \/ evaluate (Sub a b) x = Ok v \/
  evaluate (Mul a b) x = Ok v \/ evaluate (Div a b) x = Ok v ->
  exists va vb, evaluate a x = Ok (Int va) /\ evaluate b x = Ok (Int vb).
Proof.
  intros H.
  destruct (evaluate_cases a x) as [[va Ha] | Ha].
  - destruct (evaluate_cases b x) as [[vb Hb] | Hb].
    + eauto.
    + destruct (evaluate_raise_right a b x va _ Ha Hb) as (E1 & E2 & E3 & E4).
      rewrite E1, E2, E3, E4 in H.
      destruct H as [H | [H | [H | H]]]; discriminate H.
  - destruct (evaluate_raise_left a b x _ Ha) as (E1 & E2 & E3 & E4).
    rewrite E1, E2, E3, E4 in H.
    destruct H as [H | [H | [H | H]]]; discriminate H.
Qed.

(** ** The rewriting rules preserve the value *)

(** Splits on whether both simplified operands are constants. *)
Ltac both_Int s1 s2 :=
  let E := fresh "E" in
  let i1 := fresh "i" in
  let i2 := fresh "i" in
  let E1 := fresh "E" in
  let E2 := fresh "E" in
  destruct (is_Int s1 && is_Int s2) eqn:E;
  [ apply andb_true_iff in E; destruct E as [E1 E2];
    apply is_Int_true in E1; destruct E1 as [i1 ->];
    apply is_Int_true in E2; destruct E2 as [i2 ->]
  | rewrite (match_not_both_Int _ _ _ _ E) ].

(** Turns a successful test [is_Int_eq s k] into [s = Int k] and reads the
    value of [s] off its evaluation. *)
Ltac known_Int E H :=
  apply is_Int_eq_true in E; subst; simpl in H; injection H as H; subst.

Section RulesSound.
Variables (x : Z) (s1 s2 : expr) (v1 v2 : Z).
Hypothesis H1 : evaluate s1 x = Ok (Int v1).
Hypothesis H2 : evaluate s2 x = Ok (Int v2).

Lemma Add_simplify_sound :
  exists r, Add_simplify s1 s2 = Ok r /\ evaluate r x = Ok (Int (v1 + v2)).
Proof.
  unfold Add_simplify.
  destruct (is_Int_eq s1 0) eqn:Z1.
  { known_Int Z1 H1. exists s2; split; [reflexivity | exact H2]. }
  destruct (is_Int_eq s2 0) eqn:Z2.
  { known_Int Z2 H2. exists s1; split; [reflexivity | ].
    now rewrite Z.add_0_r. }
  both_Int s1 s2.
  - simpl in H1, H2. injection H1 as ->. injection H2 as ->.
    eexists; split; reflexivity.
  - eexists; split; [reflexivity | now apply evaluate_Add_values].
Qed.

Lemma Sub_simplify_sound :
  exists r, Sub_simplify s1 s2 = Ok r /\ evaluate r x = Ok (Int (v1 - v2)).
Proof.
  unfold Sub_simplify.
  destruct (is_Int_eq s2 0) eqn:Z2.
  { known_Int Z2 H2. exists s1; split; [reflexivity | ].
    now rewrite Z.sub_0_r. }
  both_Int s1 s2.
  - simpl in H1, H2. injection H1 as ->. injection H2 as ->.
    eexists; split; reflexivity.
  - eexists; split; [reflexivity | now apply evaluate_Sub_values].
Qed.

Lemma Mul_simplify_sound :
  exists r, Mul_simplify s1 s2 = Ok r /\ evaluate r x = Ok (Int (v1 * v2)).
Proof.
  unfold Mul_simplify.
  destruct (is_Int_eq s1 0) eqn:Z1.
  { known_Int Z1 H1. exists (Int 0); split; reflexivity. }
  destruct (is_Int_eq s2 0) eqn:Z2.
  { known_Int Z2 H2. exists (Int 0); split; [reflexivity | ].
    now rewrite Z.mul_0_r. }
  simpl.
  destruct (is_Int_eq s1 1) eqn:O1.
  { known_Int O1 H1. exists s2; split; [reflexivity | ].
    now rewrite Z.mul_1_l. }
  destruct (is_Int_eq s2 1) eqn:O2.
  { known_Int O2 H2. exists s1; split; [reflexivity | ].
    now rewrite Z.mul_1_r. }
  both_Int s1 s2.
  - simpl in H1, H2. injection H1 as ->. injection H2 as ->.
    eexists; split; reflexivity.
  - eexists; split; [reflexivity | now apply evaluate_Mul_values].
Qed.

Lemma Div_simplify_sound :
  v2 <> 0 ->
  exists r, Div_simplify s1 s2 = Ok r /\ evaluate r x = Ok (Int (v1 / v2)).
Proof.
  intros Hnz. unfold Div_simplify.
  destruct (is_Int_eq s1 0) eqn:Z1.
  { known_Int Z1 H1.
    destruct (is_Int_eq s2 0) eqn:Z2.
    - known_Int Z2 H2. contradiction.
    - exists (Int 0); split; reflexivity. }
  destruct (is_Int_eq s2 1) eqn:O2.
  { known_Int O2 H2. exists s1; split; [reflexivity | ].
    now rewrite Z.div_1_r. }
  both_Int s1 s2.
  - simpl in H1, H2. injection H1 as ->. injection H2 as ->.
    unfold floordiv.
    destruct (Z.eqb_spec v2 0) as [E | _]; [contradiction | ].
    eexists; split; reflexivity.
  - eexists; split; [reflexivity | now apply evaluate_Div_values].
Qed.
End RulesSound.

Lemma simplify_sound (t : expr) (x : Z) (v : expr) :
  evaluate t x = Ok v ->
  exists s, simplify t = Ok s /\ evaluate s x = Ok v.
Proof.
  revert v.
  induction t as [ | i | p1 IH1 p2 IH2 | p1 IH1 p2 IH2
                 | p1 IH1 p2 IH2 | p1 IH1 p2 IH2 ]; intros v H.
  1, 2: eexists; split; [reflexivity | exact H].
  all: destruct (evaluate_operands p1 p2 x v) as (va & vb & Ha & Hb);
    [ tauto | ];
    destruct (IH1 _ Ha) as (s1 & S1 & E1);
    destruct (IH2 _ Hb) as (s2 & S2 & E2);
    cbn [simplify]; rewrite S1, S2; cbn [bind].
  - rewrite (evaluate_Add_values _ _ _ _ _ Ha Hb) in H. injection H as <-.
    now apply Add_simplify_sound.
  - rewrite (evaluate_Mul_values _ _ _ _ _ Ha Hb) in H. injection H as <-.
    now apply Mul_simplify_sound.
  - rewrite (evaluate_Sub_values _ _ _ _ _ Ha Hb) in H. injection H as <-.
    now apply Sub_simplify_sound.
  - destruct (Z.eq_dec vb 0) as [E | N].
    + rewrite (evaluate_Div_zero _ _ _ _ _ Ha Hb E) in H. discriminate H.
    + rewrite (evaluate_Div_values _ _ _ _ _ Ha Hb N) in H. injection H as <-.
      now apply Div_simplify_sound.
Qed.

(** ** The rewriting rules never raise and produce reduced trees *)

Lemma normal_node (p : expr) :
  normal p = true -> reducible p = false.
Proof.
  destruct p; simpl; try reflexivity; intros H;
    apply andb_true_iff in H; destruct H as [H _];
    apply andb_true_iff in H; destruct H as [H _];
    now apply negb_true_iff in H.
Qed.

Lemma normal_composite (p a b : expr) :
  p = Add a b \/ p = Mul a b \/ p = Sub a b \/ p = Div a b ->
  normal p = negb (reducible p) && normal a && normal b.
Proof. intros [-> | [-> | [-> | ->]]]; reflexivity. Qed.

(** Closes a rule whose result is an operand or a literal constant. *)
Ltac rule_done :=
  eexists; split; [ reflexivity | first [ assumption | reflexivity ] ].

Section RulesNormal.
Variables s1 s2 : expr.
Hypothesis N1 : normal s1 = true.
Hypothesis N2 : normal s2 = true.

Lemma Add_simplify_normal :
  exists r, Add_simplify s1 s2 = Ok r /\ normal r = true.
Proof.
  unfold Add_simplify.
  destruct (is_Int_eq s1 0) eqn:Z1; [rule_done | ].
  destruct (is_Int_eq s2 0) eqn:Z2; [rule_done | ].
  both_Int s1 s2; [rule_done | ].
  eexists; split; [reflexivity | ].
  simpl; rewrite Z1, Z2, E, N1, N2; reflexivity.
Qed.

Lemma Sub_simplify_normal :
  exists r, Sub_simplify s1 s2 = Ok r /\ normal r = true.
Proof.
  unfold Sub_simplify.
  destruct (is_Int_eq s2 0) eqn:Z2; [rule_done | ].
  both_Int s1 s2; [rule_done | ].
  eexists; split; [reflexivity | ].
  simpl; rewrite Z2, E, N1, N2; reflexivity.
Qed.

Lemma Mul_simplify_normal :
  exists r, Mul_simplify s1 s2 = Ok r /\ normal r = true.
Proof.
  unfold Mul_simplify.
  destruct (is_Int_eq s1 0) eqn:Z1; [rule_done | ].
  destruct (is_Int_eq s2 0) eqn:Z2; [rule_done | ].
  simpl.
  destruct (is_Int_eq s1 1) eqn:O1; [rule_done | ].
  destruct (is_Int_eq s2 1) eqn:O2; [rule_done | ].
  both_Int s1 s2; [rule_done | ].
  eexists; split; [reflexivity | ].
  simpl; rewrite Z1, Z2, O1, O2, E, N1, N2; reflexivity.
Qed.

Lemma Div_simplify_normal :
  exists r, Div_simplify s1 s2 = Ok r /\ normal r = true.
Proof.
  unfold Div_simplify.
  destruct (is_Int_eq s1 0) eqn:Z1.
  { destruct (is_Int_eq s2 0) eqn:Z2; [ | rule_done ].
    eexists; split; [reflexivity | ].
    apply is_Int_eq_true in Z1, Z2; subst; reflexivity. }
  destruct (is_Int_eq s2 1) eqn:O2; [rule_done | ].
  both_Int s1 s2.
  - simpl in Z1, O2. unfold floordiv.
    destruct (i0 =? 0) eqn:Z2; [ | simpl; rule_done ].
    eexists; split; [reflexivity | ].
    simpl; rewrite Z1, Z2, O2; reflexivity.
  - eexists; split; [reflexivity | ].
    simpl; rewrite Z1, O2, N1, N2.
    rewrite <- andb_assoc.
    apply andb_false_iff in E; destruct E as [-> | ->]; simpl;
      [ reflexivity | now rewrite andb_false_r ].
Qed.
End RulesNormal.

Lemma simplify_normal (t : expr) :
  exists s, simplify t = Ok s /\ normal s = true.
Proof.
  induction t as [ | i | p1 IH1 p2 IH2 | p1 IH1 p2 IH2
                 | p1 IH1 p2 IH2 | p1 IH1 p2 IH2 ].
  1, 2: eexists; split; reflexivity.
  all: destruct IH1 as (s1 & S1 & N1); destruct IH2 as (s2 & S2 & N2);
    cbn [simplify]; rewrite S1, S2; cbn [bind].
  - now apply Add_simplify_normal.
  - now apply Mul_simplify_normal.
  - now apply Sub_simplify_normal.
  - now apply Div_simplify_normal.
Qed.

Lemma simplify_total (t : expr) : exists s, simplify t = Ok s.
Proof. destruct (simplify_normal t) as (s & S & _); eauto. Qed.

(** ** Reduced trees are fixed points *)

Lemma Add_simplify_irreducible (a b : expr) :
  reducible (Add a b) = false -> Add_simplify a b = Ok (Add a b).
Proof.
  simpl; intros H.
  apply orb_false_iff in H; destruct H as [H E].
  apply orb_false_iff in H; destruct H as [Z1 Z2].
  unfold Add_simplify; rewrite Z1, Z2.
  now apply match_not_both_Int.
Qed.

Lemma Sub_simplify_irreducible (a b : expr) :
  reducible (Sub a b) = false -> Sub_simplify a b = Ok (Sub a b).
Proof.
  simpl; intros H.
  apply orb_false_iff in H; destruct H as [Z2 E].
  unfold Sub_simplify; rewrite Z2.
  now apply match_not_both_Int.
Qed.

Lemma Mul_simplify_irreducible (a b : expr) :
  reducible (Mul a b) = false -> Mul_simplify a b = Ok (Mul a b).
Proof.
  simpl; intros H.
  apply orb_false_iff in H; destruct H as [H E].
  apply orb_false_iff in H; destruct H as [H O2].
  apply orb_false_iff in H; destruct H as [H O1].
  apply orb_false_iff in H; destruct H as [Z1 Z2].
  unfold Mul_simplify; rewrite Z1, Z2, O1, O2; simpl.
  now apply match_not_both_Int.
Qed.

Lemma Div_simplify_irreducible (a b : expr) :
  reducible (Div a b) = false -> Div_simplify a b = Ok (Div a b).
Proof.
  simpl; intros H.
  apply orb_false_iff in H; destruct H as [H E].
  apply orb_false_iff in H; destruct H as [Z O2].
  unfold Div_simplify; rewrite O2.
  destruct (is_Int_eq a 0) eqn:Z1; simpl in Z.
  { apply negb_false_iff in Z; now rewrite Z. }
  both_Int a b; [ | reflexivity ].
  simpl in E. apply negb_false_iff in E. now rewrite E.
Qed.

Lemma normal_fixed (s : expr) : normal s = true -> simplify s = Ok s.
Proof.
  induction s as [ | i | p1 IH1 p2 IH2 | p1 IH1 p2 IH2
                 | p1 IH1 p2 IH2 | p1 IH1 p2 IH2 ]; intros N.
  1, 2: reflexivity.
  all: pose proof (normal_node _ N) as R;
    cbn [normal] in N;
    apply andb_true_iff in N; destruct N as [N N2];
    apply andb_true_iff in N; destruct N as [_ N1];
    cbn [simplify]; rewrite (IH1 N1), (IH2 N2); cbn [bind].
  - now apply Add_simplify_irreducible.
  - now apply Mul_simplify_irreducible.
  - now apply Sub_simplify_irreducible.
  - now apply Div_simplify_irreducible.
Qed.

(** ** [normal] against the subtree formulation *)

Lemma normal_subtree (s u : expr) :
  normal s = true -> subtree u s -> reducible u = false.
Proof.
  intros N Hsub; induction Hsub.
  1: now apply normal_node.
  all: apply IHHsub; cbn [normal] in N;
    apply andb_true_iff in N; destruct N as [N N2];
    apply andb_true_iff in N; destruct N as [_ N1]; assumption.
Qed.

Lemma subtree_normal (s : expr) :
  (forall u, subtree u s -> reducible u = false) -> normal s = true.
Proof.
  induction s as [ | i | p1 IH1 p2 IH2 | p1 IH1 p2 IH2
                 | p1 IH1 p2 IH2 | p1 IH1 p2 IH2 ]; intros H.
  1, 2: reflexivity.
  all: cbn [normal]; rewrite (H _ (subtree_refl _)); cbn [negb andb];
    rewrite IH1, IH2; [ reflexivity | | ]; intros u Hu; apply H.
  - now apply subtree_Add_r.
  - now apply subtree_Add_l.
  - now apply subtree_Mul_r.
  - now apply subtree_Mul_l.
  - now apply subtree_Sub_r.
  - now apply subtree_Sub_l.
  - now apply subtree_Div_r.
  - now apply subtree_Div_l.
Qed.

(** An irreducible composite node with two constant operands is a division
    by the constant zero. *)
Lemma irreducible_all_constant (u : expr) :
  reducible u = false -> all_constant u = true ->
  exists i, u = Div (Int i) (Int 0).
Proof.
  destruct u as [ | i | a b | a b | a b | a b ]; simpl; intros R C;
    try discriminate C.
  1, 2, 3: rewrite C in R; rewrite ?orb_true_r in R; discriminate R.
  rewrite C in R.
  apply andb_true_iff in C; destruct C as [Ca Cb].
  apply is_Int_true in Ca, Cb. destruct Ca as [i ->], Cb as [j ->].
  simpl in R.
  apply orb_false_iff in R; destruct R as [_ R].
  apply negb_false_iff, Z.eqb_eq in R; subst j.
  now exists i.
Qed.

(** ** Strings *)

Lemma append_assoc (s1 s2 s3 : string) :
  (s1 ++ s2) ++ s3 = s1 ++ (s2 ++ s3).
Proof.
  induction s1 as [ | c s1 IH ]; simpl; [ reflexivity | now rewrite IH ].
Qed.

(** ** Floor division *)

Lemma floordiv_is_floor (a b q : Z) :
  floordiv a b = Ok q -> q = a / b /\ is_floor_quotient a b q.
Proof.
  unfold floordiv, is_floor_quotient.
  destruct (Z.eqb_spec b 0) as [E | N]; [discriminate | ].
  intros H; injection H as <-.
  split; [reflexivity | ].
  pose proof (Z.div_mod a b N) as D.
  split; intros Hb.
  - pose proof (Z.mod_pos_bound a b Hb). lia.
  - pose proof (Z.mod_neg_bound a b Hb). lia.
Qed.

Lemma is_floor_quotient_unique (a b q q' : Z) :
  b <> 0 -> is_floor_quotient a b q -> is_floor_quotient a b q' -> q = q'.
Proof.
  unfold is_floor_quotient; intros N [P1 N1] [P2 N2].
  destruct (Z.lt_total b 0) as [Hb | [Hb | Hb]]; [ | contradiction | ].
  - specialize (N1 Hb); specialize (N2 Hb). nia.
  - specialize (P1 Hb); specialize (P2 Hb). nia.
Qed.

(** ** The object store: evaluation allocates and never overwrites *)

Lemma nth_error_app_Some (h hn : heap) (l : addr) (o : obj) :
  nth_error h l = Some o -> nth_error (h ++ hn)%list l = Some o.
Proof.
  intros H. rewrite nth_error_app1; [ exact H | ].
  apply nth_error_Some. congruence.
Qed.

Lemma nth_error_snoc (h : heap) (o : obj) :
  nth_error (h ++ [o])%list (List.length h) = Some o.
Proof.
  rewrite nth_error_app2 by apply Nat.le_refl.
  now rewrite Nat.sub_diag.
Qed.

Lemma rep_app (t : expr) (h hn : heap) (l : addr) :
  rep h l t -> rep (h ++ hn)%list l t.
Proof.
  revert l.
  induction t as [ | i | a IHa b IHb | a IHa b IHb
                 | a IHa b IHb | a IHa b IHb ]; intros l; simpl.
  1, 2: apply nth_error_app_Some.
  all: intros (la & lb & Hl & Ra & Rb); exists la, lb;
    auto using nth_error_app_Some.
Qed.

Lemma new_Int_runs_as (i : Z) (h : heap) :
  runs_as (new_Int i) h (Ok (Int i)).
Proof.
  exists [OInt i], (Ok (List.length h)). split; [ reflexivity | ].
  exists i. split; [ reflexivity | apply nth_error_snoc ].
Qed.

Section Operands.
Variables (a b : expr) (n : nat) (x : Z).
Variable k : addr -> addr -> M addr.
Hypothesis IHa :
  forall h l, rep h l a -> runs_as (evaluate_in n l x) h (evaluate a x).
Hypothesis IHb :
  forall h l, rep h l b -> runs_as (evaluate_in n l x) h (evaluate b x).

(** The two recursive calls of a binary node, followed by [k] on the two
    references they return. *)
Lemma call_operands_run (h : heap) (la lb : addr) :
  rep h la a -> rep h lb b ->
  match evaluate a x, evaluate b x with
  | Raise e, _ =>
      exists hn,
        (v1 <~ evaluate_in n la x ;; v2 <~ evaluate_in n lb x ;; k v1 v2) h
        = Some ((h ++ hn)%list, Raise e)
  | Ok _, Raise e =>
      exists hn,
        (v1 <~ evaluate_in n la x ;; v2 <~ evaluate_in n lb x ;; k v1 v2) h
        = Some ((h ++ hn)%list, Raise e)
  | Ok v1, Ok v2 =>
      exists hn l1 l2 i1 i2,
        v1 = Int i1 /\ v2 = Int i2 /\
        nth_error (h ++ hn)%list l1 = Some (OInt i1) /\
        nth_error (h ++ hn)%list l2 = Some (OInt i2) /\
        (v1 <~ evaluate_in n la x ;; v2 <~ evaluate_in n lb x ;; k v1 v2) h
        = k l1 l2 (h ++ hn)%list
  end.
Proof.
  intros Ra Rb. unfold mbind.
  destruct (IHa h la Ra) as (hn1 & r1 & E1 & A1). rewrite E1.
  unfold agrees in A1.
  destruct (evaluate a x) as [v1 | e]; destruct r1 as [l1 | e1];
    try contradiction.
  2: { subst e1. now exists hn1. }
  destruct A1 as (i1 & -> & L1).
  destruct (IHb _ lb (rep_app b h hn1 lb Rb)) as (hn2 & r2 & E2 & A2).
  rewrite E2. unfold agrees in A2.
  destruct (evaluate b x) as [v2 | e]; destruct r2 as [l2 | e2];
    try contradiction.
  2: { subst e2. exists (hn1 ++ hn2)%list. now rewrite app_assoc. }
  destruct A2 as (i2 & -> & L2).
  exists (hn1 ++ hn2)%list, l1, l2, i1, i2.
  rewrite app_assoc.
  repeat split; auto using nth_error_app_Some.
Qed.
End Operands.

(** Closes the case of a raising operand. *)
Ltac operand_raised C :=
  let hn := fresh "hn" in
  destruct C as (hn & ->); exists hn; eexists; split; reflexivity.

(** Reads the two [Int] objects returned by the operands. *)
Ltac operands_returned C hn i1 i2 :=
  let l1 := fresh "l" in
  let l2 := fresh "l" in
  let L1 := fresh "L" in
  let L2 := fresh "L" in
  destruct C as (hn & l1 & l2 & i1 & i2 & -> & -> & L1 & L2 & ->);
  cbn [get_i bind]; unfold mbind, attr_i; rewrite ?L1, ?L2.

Lemma evaluate_in_runs (t : expr) :
  forall (fuel : nat) (h : heap) (l : addr) (x : Z),
    rep h l t -> (depth t <= fuel)%nat ->
    runs_as (evaluate_in fuel l x) h (evaluate t x).
Proof.
  induction t as [ | i | a IHa b IHb | a IHa b IHb
                 | a IHa b IHb | a IHa b IHb ];
    intros fuel h l x R F;
    (destruct fuel as [ | n ]; [ simpl in F; lia | ]);
    cbn [evaluate_in rep depth] in *.
  1, 2: unfold runs_as; rewrite R; apply new_Int_runs_as.
  all: destruct R as (la & lb & Hl & Ra & Rb);
    unfold runs_as; rewrite Hl;
    assert (IHa' : forall h l, rep h l a ->
                     runs_as (evaluate_in n l x) h (evaluate a x))
      by (intros; apply IHa; [ assumption | lia ]);
    assert (IHb' : forall h l, rep h l b ->
                     runs_as (evaluate_in n l x) h (evaluate b x))
      by (intros; apply IHb; [ assumption | lia ]);
    match goal with
    | |- context [ mbind _ (fun v1 => mbind _ (fun v2 => @?k v1 v2)) ?h0 ] =>
        pose proof (call_operands_run a b n x k IHa' IHb' h0 la lb Ra Rb) as C
    end;
    cbv beta in C; cbn [evaluate];
    (destruct (evaluate a x) as [va | ea]; [ | operand_raised C ]);
    (destruct (evaluate b x) as [vb | eb]; [ | operand_raised C ]).
  - operands_returned C hn i1 i2.
    exists (hn ++ [OInt (i1 + i2)])%list. eexists.
    rewrite app_assoc. split; [ reflexivity | ].
    exists (i1 + i2). split; [ reflexivity | apply nth_error_snoc ].
  - operands_returned C hn i1 i2.
    exists (hn ++ [OInt (i1 * i2)])%list. eexists.
    rewrite app_assoc. split; [ reflexivity | ].
    exists (i1 * i2). split; [ reflexivity | apply nth_error_snoc ].
  - operands_returned C hn i1 i2.
    exists (hn ++ [OInt (i1 - i2)])%list. eexists.
    rewrite app_assoc. split; [ reflexivity | ].
    exists (i1 - i2). split; [ reflexivity | apply nth_error_snoc ].
  - operands_returned C hn i1 i2.
    unfold mraise.
    destruct (i2 =? 0) eqn:Z2.
    + exists hn. eexists. split; reflexivity.
    + rewrite ?L, ?L0. unfold mfloordiv, floordiv. rewrite Z2. cbn [bind].
      exists (hn ++ [OInt (i1 / i2)])%list. eexists.
      rewrite app_assoc. split; [ reflexivity | ].
      exists (i1 / i2). split; [ reflexivity | apply nth_error_snoc ].
Qed.

Lemma evaluate_in_preserves (t : expr) (fuel : nat) (h : heap) (l : addr)
    (x : Z) :
  rep h l t -> (depth t <= fuel)%nat ->
  exists (h' : heap) (r : result addr),
    evaluate_in fuel l x h = Some (h', r) /\
    agrees h' r (evaluate t x) /\
    (forall l0 o, nth_error h l0 = Some o -> nth_error h' l0 = Some o) /\
    rep h' l t.
Proof.
  intros R F.
  destruct (evaluate_in_runs t fuel h l x R F) as (hn & r & E & A).
  exists (h ++ hn)%list, r.
  repeat split; auto using nth_error_app_Some, rep_app.
Qed.

Lemma build_rep (t : expr) :
  forall h : heap,
    exists hn, fst (build t h) = (h ++ hn)%list /\
               rep (h ++ hn)%list (snd (build t h)) t.
Proof.
  induction t as [ | i | a IHa b IHb | a IHa b IHb
                 | a IHa b IHb | a IHa b IHb ]; intros h; cbn [build].
  1, 2: eexists; split; [ reflexivity | apply nth_error_snoc ].
  all: destruct (IHa h) as (hn1 & E1 & R1);
    destruct (build a h) as [h1 la]; cbn [fst snd] in E1, R1; subst h1;
    destruct (IHb (h ++ hn1)%list) as (hn2 & E2 & R2);
    destruct (build b (h ++ hn1)%list) as [h2 lb];
    cbn [fst snd] in E2, R2 |- *; subst h2;
    eexists (hn1 ++ hn2 ++ [_])%list;
    rewrite !app_assoc;
    (split; [ reflexivity | ]);
    cbn [rep]; exists la, lb;
    (split; [ apply nth_error_snoc | ]);
    split; [ rewrite <- app_assoc | ]; auto using rep_app.
Qed.

(** * The claims *)

(** C1: whenever [evaluate t x] succeeds, [simplify t] succeeds too and the
    simplified tree evaluates at [x] to the same [Int] constant. *)
Theorem simplify_preserves_evaluate (t : expr) (x : Z) (v : expr) :
  evaluate t x = Ok v ->
  exists s i, simplify t = Ok s /\ evaluate s x = Ok v /\ v = Int i.
Proof.
  intros H.
  destruct (simplify_sound t x v H) as (s & S & E).
  destruct (evaluate_Ok_Int t x v H) as (i & ->).
  now exists s, i.
Qed.

Lemma simplify_preserves_evaluate_witness :
  evaluate (Add (Mul X (Int 1)) (Div (Int 0) X)) 5 = Ok (Int 5) /\
  exists s i,
    simplify (Add (Mul X (Int 1)) (Div (Int 0) X)) = Ok s /\
    evaluate s 5 = Ok (Int 5) /\ Int 5 = Int i.
Proof.
  split; [ reflexivity | ].
  apply (simplify_preserves_evaluate
           (Add (Mul X (Int 1)) (Div (Int 0) X)) 5 (Int 5)).
  reflexivity.
Defined.

(** C2: [simplify] is idempotent.  It never raises, and simplifying its
    result returns that same tree again; hence the two results also have
    the same rendering. *)
Theorem simplify_idempotent (t : expr) :
  exists s,
    simplify t = Ok s /\ simplify s = Ok s /\
    (s1 <- simplify t ;; simplify s1) = simplify t /\
    (s1 <- simplify t ;; s2 <- simplify s1 ;; Ok (render s2))
    = (s1 <- simplify t ;; Ok (render s1)).
Proof.
  destruct (simplify_normal t) as (s & S & N).
  pose proof (normal_fixed s N) as F.
  exists s. rewrite S; cbn [bind]; rewrite F; cbn [bind].
  repeat split; reflexivity.
Qed.

(** C3: [Div.evaluate] on operands with values [va] and [vb] raises
    [ZeroDivisionError] exactly when [vb = 0], and otherwise returns the
    [Int] of the floor quotient of [va] by [vb]: the one integer [q] with
    [q <= va / vb < q + 1] over the rationals.  So 7 // 2 is 3, -7 // 2 is
    -4 (truncation would give -3), and 5 // 0 raises.  An operand that
    raises makes the node raise the same exception. *)
Theorem Div_evaluate_floor :
  (forall (a b : expr) (x va vb : Z),
      evaluate a x = Ok (Int va) ->
      evaluate b x = Ok (Int vb) ->
      (evaluate (Div a b) x = Raise ZeroDivisionError <-> vb = 0) /\
      (vb <> 0 ->
       evaluate (Div a b) x = Ok (Int (va / vb)) /\
       is_floor_quotient va vb (va / vb) /\
       forall q, is_floor_quotient va vb q -> q = va / vb)) /\
  (forall (a b : expr) (x : Z) (e : exn),
      (evaluate a x = Raise e -> evaluate (Div a b) x = Raise e) /\
      (forall va, evaluate a x = Ok (Int va) -> evaluate b x = Raise e ->
                  evaluate (Div a b) x = Raise e)) /\
  (forall x : Z,
      evaluate (Div (Int 7) (Int 2)) x = Ok (Int 3) /\
      evaluate (Div (Int (-7)) (Int 2)) x = Ok (Int (-4)) /\
      Z.quot (-7) 2 = -3 /\
      evaluate (Div (Int 5) (Int 0)) x = Raise ZeroDivisionError).
Proof.
  split.
  - intros a b x va vb Ha Hb. split.
    + split.
      * intros H. destruct (Z.eq_dec vb 0) as [E | N]; [exact E | ].
        rewrite (evaluate_Div_values _ _ _ _ _ Ha Hb N) in H. discriminate H.
      * now apply evaluate_Div_zero with (va := va).
    + intros N.
      assert (Q : is_floor_quotient va vb (va / vb))
        by (apply (floordiv_is_floor va vb); now apply floordiv_nonzero).
      split; [ now apply evaluate_Div_values | ].
      split; [ exact Q | ].
      intros q Hq. now apply (is_floor_quotient_unique va vb).
  - split.
    + intros a b x e. split.
      * intros Ha. now apply evaluate_raise_left.
      * intros va Ha Hb. now apply (evaluate_raise_right a b x va e).
    + intros x. repeat split; reflexivity.
Qed.

Lemma Div_evaluate_floor_witness :
  evaluate (Div (Sub X (Int 10)) (Add X (Int 1))) 3 = Ok (Int (-2)).
Proof.
  destruct Div_evaluate_floor as [H _].
  destruct (H (Sub X (Int 10)) (Add X (Int 1)) 3 (-7) 4 eq_refl eq_refl)
    as [_ Hq].
  destruct Hq as [Hq _]; [ lia | exact Hq ].
Defined.

(** C4: [simplify] returns a tree on every input.  When the simplified
    denominator of a [Div] is the constant 0 the result is the [Div] of the
    simplified operands, whatever the numerator, and evaluating it raises
    [ZeroDivisionError]; in particular 0 / 0 stays a [Div]. *)
Theorem simplify_never_fails :
  (forall t : expr, exists s, simplify t = Ok s) /\
  (forall (a b sa : expr),
      simplify a = Ok sa ->
      simplify b = Ok (Int 0) ->
      simplify (Div a b) = Ok (Div sa (Int 0)) /\
      forall x, evaluate (Div sa (Int 0)) x = Raise ZeroDivisionError) /\
  simplify (Div (Int 0) (Int 0)) = Ok (Div (Int 0) (Int 0)) /\
  simplify (Div (Int 0) (Int 0)) <> Ok (Int 0) /\
  (forall x : Z, evaluate (Div (Int 0) (Int 0)) x = Raise ZeroDivisionError).
Proof.
  split; [ exact simplify_total | ].
  split.
  - intros a b sa Sa Sb. split.
    + cbn [simplify]; rewrite Sa, Sb; cbn [bind].
      apply Div_simplify_irreducible.
      simpl. rewrite andb_false_r, andb_false_r. reflexivity.
    + intros x.
      destruct (evaluate_cases sa x) as [[i Hi] | Hr].
      * now apply evaluate_Div_zero with (va := i) (vb := 0).
      * now apply evaluate_raise_left.
  - repeat split; try reflexivity. discriminate.
Qed.

Lemma simplify_never_fails_witness :
  simplify (Div (Add X (Int 0)) (Sub (Int 2) (Int 2))) = Ok (Div X (Int 0)).
Proof.
  destruct simplify_never_fails as (_ & H & _).
  destruct (H (Add X (Int 0)) (Sub (Int 2) (Int 2)) X eq_refl eq_refl)
    as [Hs _].
  exact Hs.
Defined.

(** C5: the evaluation equations.  [X] evaluates to the [Int] of the given
    value and [Int c] to [Int c] whatever that value is; [Add], [Sub] and
    [Mul] on operands with values [va] and [vb] return the [Int] of the sum,
    difference and product; every returned value is an [Int].  Run on a
    store of objects, with enough recursion budget for the tree, [evaluate]
    ends with the outcome of the pure function, leaves every object that
    existed before the call as it was, and the reference passed in still
    denotes the same tree; every tree has such a store, the one its
    constructor calls build. *)
Theorem evaluate_equations :
  (forall x : Z, evaluate X x = Ok (Int x)) /\
  (forall c x : Z, evaluate (Int c) x = Ok (Int c)) /\
  (forall (a b : expr) (x va vb : Z),
      evaluate a x = Ok (Int va) ->
      evaluate b x = Ok (Int vb) ->
      evaluate (Add a b) x = Ok (Int (va + vb)) /\
      evaluate (Sub a b) x = Ok (Int (va - vb)) /\
      evaluate (Mul a b) x = Ok (Int (va * vb))) /\
  (forall (t : expr) (x : Z) (v : expr),
      evaluate t x = Ok v -> exists i, v = Int i) /\
  (forall (t : expr) (x : Z) (fuel : nat) (h : heap) (l : addr),
      rep h l t -> (depth t <= fuel)%nat ->
      exists (h' : heap) (r : result addr),
        evaluate_in fuel l x h = Some (h', r) /\
        agrees h' r (evaluate t x) /\
        (forall l0 o, nth_error h l0 = Some o -> nth_error h' l0 = Some o) /\
        rep h' l t) /\
  (forall (t : expr) (h : heap), rep (fst (build t h)) (snd (build t h)) t).
Proof.
  split; [ reflexivity | ].
  split; [ reflexivity | ].
  split.
  { intros a b x va vb Ha Hb.
    auto using evaluate_Add_values, evaluate_Sub_values, evaluate_Mul_values. }
  split; [ exact evaluate_Ok_Int | ].
  split.
  - intros t x fuel h l. apply evaluate_in_preserves.
  - intros t h. destruct (build_rep t h) as (hn & -> & R). exact R.
Qed.

Lemma evaluate_equations_witness :
  evaluate (Add (Mul X X) (Int 3)) 4 = Ok (Int 19) /\
  exists (h' : heap) (r : result addr),
    evaluate_in 2 2%nat 4 [OX; OInt 3; OSub 0%nat 1%nat] = Some (h', r) /\
    agrees h' r (evaluate (Sub X (Int 3)) 4) /\
    (forall l0 o,
        nth_error [OX; OInt 3; OSub 0%nat 1%nat] l0 = Some o ->
        nth_error h' l0 = Some o) /\
    rep h' 2%nat (Sub X (Int 3)).
Proof.
  destruct evaluate_equations as (_ & _ & Hop & _ & Hstore & _).
  split.
  - destruct (Hop (Mul X X) (Int 3) 4 16 3 eq_refl eq_refl) as [Hadd _].
    exact Hadd.
  - apply (Hstore (Sub X (Int 3)) 4 2%nat [OX; OInt 3; OSub 0%nat 1%nat] 2%nat).
    + exists 0%nat, 1%nat. repeat split.
    + apply Nat.le_refl.
Defined.

(** C6: in [Mul.simplify] the zero rule comes first.  If either simplified
    operand is the constant 0 the result is the constant 0, also when the
    other operand is the constant 1 or any other constant: 0 * 1 and 1 * 0
    simplify to 0, not to 1. *)
Theorem Mul_zero_rule_first :
  (forall (a b s1 s2 : expr),
      simplify a = Ok s1 ->
      simplify b = Ok s2 ->
      s1 = Int 0 \/ s2 = Int 0 ->
      simplify (Mul a b) = Ok (Int 0)) /\
  (forall s : expr,
      Mul_simplify (Int 0) s = Ok (Int 0) /\
      Mul_simplify s (Int 0) = Ok (Int 0)) /\
  simplify (Mul (Int 0) (Int 1)) = Ok (Int 0) /\
  simplify (Mul (Int 0) (Int 1)) <> Ok (Int 1) /\
  simplify (Mul (Int 1) (Int 0)) = Ok (Int 0).
Proof.
  assert (Hrule : forall s, Mul_simplify (Int 0) s = Ok (Int 0) /\
                            Mul_simplify s (Int 0) = Ok (Int 0)).
  { intros s; split; unfold Mul_simplify; cbn [is_Int_eq Z.eqb orb].
    - reflexivity.
    - now rewrite orb_true_r. }
  split.
  - intros a b s1 s2 S1 S2 H.
    cbn [simplify]; rewrite S1, S2; cbn [bind].
    destruct H as [-> | ->]; apply Hrule.
  - split; [ exact Hrule | ].
    repeat split; try reflexivity. discriminate.
Qed.

Lemma Mul_zero_rule_first_witness :
  simplify (Mul (Sub (Int 2) (Int 2)) (Div X (Int 1))) = Ok (Int 0).
Proof.
  destruct Mul_zero_rule_first as [H _].
  apply (H (Sub (Int 2) (Int 2)) (Div X (Int 1)) (Int 0) X);
    [ reflexivity | reflexivity | left; reflexivity ].
Defined.

(** C7: the parenthesization rules of [__repr__].  [Add] never adds
    parentheses; [Mul] and [Div] wrap an operand in "( " and " )" exactly
    when it is an [Add] or a [Sub]; [Sub] wraps its left operand exactly
    when it is an [Add] and its right operand exactly when it is an [Add]
    or a [Sub]. *)
Theorem render_parenthesization :
  (forall a b : expr,
      render (Add a b) = render a ++ " + " ++ render b /\
      render (Mul a b)
      = paren (is_Add_or_Sub a) a ++ " * " ++ paren (is_Add_or_Sub b) b /\
      render (Sub a b)
      = paren (is_Add a) a ++ " - " ++ paren (is_Add_or_Sub b) b /\
      render (Div a b)
      = paren (is_Add_or_Sub a) a ++ " / " ++ paren (is_Add_or_Sub b) b) /\
  (forall p : expr,
      (is_Add p = true <-> exists l r, p = Add l r) /\
      (is_Add_or_Sub p = true <->
       (exists l r, p = Add l r) \/ (exists l r, p = Sub l r))) /\
  (forall p : expr,
      paren true p = "( " ++ render p ++ " )" /\ paren false p = render p) /\
  render (Mul (Add (Int 1) (Int 2)) (Int 3)) = "( 1 + 2 ) * 3" /\
  render (Sub (Int 10) (Sub (Int 3) (Int 1))) = "10 - ( 3 - 1 )".
Proof.
  split; [ intros a b; repeat split; reflexivity | ].
  split.
  - intros p; split; split.
    + destruct p; simpl; try discriminate; eauto.
    + intros (l & r & ->); reflexivity.
    + destruct p; simpl; try discriminate; eauto.
    + intros [(l & r & ->) | (l & r & ->)]; reflexivity.
  - repeat split; reflexivity.
Qed.

(** C8: [simplify t] is in normal form.  None of its subtrees is a node at
    which a rewriting rule applies ([reducible]), and a composite subtree
    with two constant operands can only be a [Div] by the constant 0. *)
Theorem simplify_normal_form (t : expr) :
  exists s,
    simplify t = Ok s /\
    normal s = true /\
    forall u, subtree u s ->
      reducible u = false /\
      (all_constant u = true -> exists i, u = Div (Int i) (Int 0)).
Proof.
  destruct (simplify_normal t) as (s & S & N).
  exists s. split; [ exact S | ]. split; [ exact N | ].
  intros u Hu.
  pose proof (normal_subtree s u N Hu) as R.
  split; [ exact R | ].
  now apply irreducible_all_constant.
Qed.

(** C9: [simplify] can turn a failing evaluation into a successful one.
    Multiplying 1 / 0 by 0 raises [ZeroDivisionError] when evaluated, but
    simplifies to the constant 0, which evaluates to 0: the zero rule of
    [Mul] drops the other operand whatever it is. *)
Theorem simplify_erases_failure :
  (forall x : Z,
      evaluate (Mul (Div (Int 1) (Int 0)) (Int 0)) x
      = Raise ZeroDivisionError /\
      simplify (Mul (Div (Int 1) (Int 0)) (Int 0)) = Ok (Int 0) /\
      evaluate (Int 0) x = Ok (Int 0)) /\
  (exists (t : expr) (x : Z) (s : expr),
      evaluate t x = Raise ZeroDivisionError /\
      simplify t = Ok s /\ evaluate s x = Ok (Int 0)) /\
  (forall a : expr, simplify (Mul a (Int 0)) = Ok (Int 0)).
Proof.
  split; [ intros x; repeat split; reflexivity | ].
  split.
  - exists (Mul (Div (Int 1) (Int 0)) (Int 0)), 0, (Int 0).
    repeat split; reflexivity.
  - intros a. destruct (simplify_total a) as (s & S).
    cbn [simplify]; rewrite S; cbn [bind].
    unfold Mul_simplify; cbn [is_Int_eq Z.eqb].
    now rewrite orb_true_r.
Qed.

(** C10: rendering does not determine the value.  2 * (3 / 2) and
    (2 * 3) / 2 both render as "2 * 3 / 2" but evaluate to 2 and to 3;
    more generally a [Div] under a [Mul] and a [Mul] under a [Div] are
    never parenthesized, so the two groupings always render alike. *)
Theorem render_not_injective :
  render (Mul (Int 2) (Div (Int 3) (Int 2))) = "2 * 3 / 2" /\
  render (Div (Mul (Int 2) (Int 3)) (Int 2)) = "2 * 3 / 2" /\
  (forall x : Z,
      evaluate (Mul (Int 2) (Div (Int 3) (Int 2))) x = Ok (Int 2) /\
      evaluate (Div (Mul (Int 2) (Int 3)) (Int 2)) x = Ok (Int 3)) /\
  (forall a b c : expr,
      render (Mul a (Div b c)) = render (Div (Mul a b) c)) /\
  (forall a b : expr,
      fmt render (Mul a b) = render (Mul a b) /\
      fmt render (Div a b) = render (Div a b)).
Proof.
  split; [ reflexivity | ].
  split; [ reflexivity | ].
  split; [ intros x; split; reflexivity | ].
  split.
  - intros a b c.
    change (render (Mul a (Div b c)))
      with (fmt render a ++ " * " ++ (fmt render b ++ " / " ++ fmt render c)).
    change (render (Div (Mul a b) c))
      with ((fmt render a ++ " * " ++ fmt render b) ++ " / " ++ fmt render c).
    now rewrite !append_assoc.
  - intros a b; split; reflexivity.
Qed.

(** * Further properties of [evaluate] and [simplify] *)

(** ** When evaluation raises *)

Lemma evaluate_not_AttributeError (t : expr) (x : Z) :
  evaluate t x <> Raise AttributeError.
Proof.
  destruct (evaluate_cases t x) as [[i H] | H]; rewrite H; discriminate.
Qed.

Lemma evaluate_Div_zero_denominator (a b : expr) (x : Z) :
  evaluate b x = Ok (Int 0) -> evaluate (Div a b) x = Raise ZeroDivisionError.
Proof.
  intros Hb.
  destruct (evaluate_cases a x) as [[i Ha] | Ha].
  - now apply evaluate_Div_zero with (va := i) (vb := 0).
  - now apply evaluate_raise_left.
Qed.

(** A raising subtree makes the whole tree raise. *)
Lemma subtree_raises (u t : expr) (x : Z) :
  subtree u t ->
  evaluate u x = Raise ZeroDivisionError ->
  evaluate t x = Raise ZeroDivisionError.
Proof.
  intros Hsub Hu.
  induction Hsub as [ | a b _ IH | a b _ IH | a b _ IH | a b _ IH
                    | a b _ IH | a b _ IH | a b _ IH | a b _ IH ].
  1: exact Hu.
  1, 3, 5, 7: now apply evaluate_raise_left.
  all: destruct (evaluate_cases a x) as [[i Ha] | Ha];
    [ now apply (evaluate_raise_right a b x i)
    | now apply evaluate_raise_left ].
Qed.

Lemma raises_zero_denominator (t : expr) (x : Z) :
  evaluate t x = Raise ZeroDivisionError ->
  exists a b, subtree (Div a b) t /\ evaluate b x = Ok (Int 0).
Proof.
  induction t as [ | i | p1 IH1 p2 IH2 | p1 IH1 p2 IH2
                 | p1 IH1 p2 IH2 | p1 IH1 p2 IH2 ]; intros H.
  1, 2: discriminate H.
  all: destruct (evaluate_cases p1 x) as [[v1 H1] | H1];
    [ | destruct (IH1 H1) as (a & b & Hs & Hb); exists a, b;
        split; [ | exact Hb ] ];
    [ destruct (evaluate_cases p2 x) as [[v2 H2] | H2];
      [ | destruct (IH2 H2) as (a & b & Hs & Hb); exists a, b;
          split; [ | exact Hb ] ] | ].
  1: rewrite (evaluate_Add_values _ _ _ _ _ H1 H2) in H; discriminate H.
  1: now apply subtree_Add_r.
  1: now apply subtree_Add_l.
  1: rewrite (evaluate_Mul_values _ _ _ _ _ H1 H2) in H; discriminate H.
  1: now apply subtree_Mul_r.
  1: now apply subtree_Mul_l.
  1: rewrite (evaluate_Sub_values _ _ _ _ _ H1 H2) in H; discriminate H.
  1: now apply subtree_Sub_r.
  1: now apply subtree_Sub_l.
  - destruct (Z.eq_dec v2 0) as [E | N].
    + subst v2. exists p1, p2. split; [ apply subtree_refl | exact H2 ].
    + rewrite (evaluate_Div_values _ _ _ _ _ H1 H2 N) in H; discriminate H.
  - now apply subtree_Div_r.
  - now apply subtree_Div_l.
Qed.

(** X1: [evaluate] raises [ZeroDivisionError] exactly when some [Div] node
    of the tree has a denominator that evaluates to 0, returns an [Int]
    exactly when there is none, and never raises [AttributeError]. *)
Theorem evaluate_raises_iff (t : expr) (x : Z) :
  (evaluate t x = Raise ZeroDivisionError <->
   exists a b, subtree (Div a b) t /\ evaluate b x = Ok (Int 0)) /\
  ((exists i, evaluate t x = Ok (Int i)) <->
   forall a b, subtree (Div a b) t -> evaluate b x <> Ok (Int 0)) /\
  evaluate t x <> Raise AttributeError.
Proof.
  assert (R : (exists a b, subtree (Div a b) t /\ evaluate b x = Ok (Int 0))
              -> evaluate t x = Raise ZeroDivisionError).
  { intros (a & b & Hs & Hb).
    apply (subtree_raises (Div a b)); [ exact Hs | ].
    now apply evaluate_Div_zero_denominator. }
  split; [ split; [ apply raises_zero_denominator | exact R ] | ].
  split; [ | apply evaluate_not_AttributeError ].
  split.
  - intros [i Hi] a b Hs Hb.
    rewrite R in Hi by eauto. discriminate Hi.
  - intros H.
    destruct (evaluate_cases t x) as [Hok | Hr]; [ exact Hok | ].
    destruct (raises_zero_denominator t x Hr) as (a & b & Hs & Hb).
    now destruct (H a b Hs).
Qed.

(** ** The shape of what a rule returns *)

Lemma Add_simplify_shape (s1 s2 : expr) :
  exists r, Add_simplify s1 s2 = Ok r /\ rule_result s1 s2 (Add s1 s2) r.
Proof.
  unfold Add_simplify.
  destruct (is_Int_eq s1 0); [ eauto using rule_result | ].
  destruct (is_Int_eq s2 0); [ eauto using rule_result | ].
  both_Int s1 s2; eauto using rule_result.
Qed.

Lemma Sub_simplify_shape (s1 s2 : expr) :
  exists r, Sub_simplify s1 s2 = Ok r /\ rule_result s1 s2 (Sub s1 s2) r.
Proof.
  unfold Sub_simplify.
  destruct (is_Int_eq s2 0); [ eauto using rule_result | ].
  both_Int s1 s2; eauto using rule_result.
Qed.

Lemma Mul_simplify_shape (s1 s2 : expr) :
  exists r, Mul_simplify s1 s2 = Ok r /\ rule_result s1 s2 (Mul s1 s2) r.
Proof.
  unfold Mul_simplify.
  destruct (is_Int_eq s1 0 || is_Int_eq s2 0); [ eauto using rule_result | ].
  destruct (is_Int_eq s1 1); [ eauto using rule_result | ].
  destruct (is_Int_eq s2 1); [ eauto using rule_result | ].
  both_Int s1 s2; eauto using rule_result.
Qed.

Lemma Div_simplify_shape (s1 s2 : expr) :
  exists r, Div_simplify s1 s2 = Ok r /\ rule_result s1 s2 (Div s1 s2) r.
Proof.
  unfold Div_simplify.
  destruct (is_Int_eq s1 0).
  { destruct (is_Int_eq s2 0); eauto using rule_result. }
  destruct (is_Int_eq s2 1); [ eauto using rule_result | ].
  both_Int s1 s2; [ | eauto using rule_result ].
  unfold floordiv. destruct (i0 =? 0); simpl; eauto using rule_result.
Qed.

(** ** Simplification does not grow the tree *)

Lemma size_pos (t : expr) : (1 <= size t)%nat.
Proof. destruct t; simpl; lia. Qed.

Lemma rule_result_size (p1 p2 s1 s2 node r : expr)
    (op : expr -> expr -> expr) :
  node = op s1 s2 ->
  size (op s1 s2) = S (size s1 + size s2) ->
  size (op p1 p2) = S (size p1 + size p2) ->
  (s1 = p1 \/ (size s1 < size p1)%nat) ->
  (s2 = p2 \/ (size s2 < size p2)%nat) ->
  rule_result s1 s2 node r ->
  r = op p1 p2 \/ (size r < size (op p1 p2))%nat.
Proof.
  intros -> Hs Hp H1 H2 Hr.
  pose proof (size_pos p1). pose proof (size_pos p2).
  pose proof (size_pos s1). pose proof (size_pos s2).
  destruct Hr.
  - right. destruct H1 as [-> | H1]; lia.
  - right. destruct H2 as [-> | H2]; lia.
  - right. simpl. lia.
  - destruct H1 as [-> | H1]; destruct H2 as [-> | H2];
      [ left; reflexivity | right; lia .. ].
Qed.

Lemma rule_result_depth (p1 p2 s1 s2 node r : expr) :
  depth node = S (Nat.max (depth s1) (depth s2)) ->
  (depth s1 <= depth p1)%nat ->
  (depth s2 <= depth p2)%nat ->
  rule_result s1 s2 node r ->
  (depth r <= S (Nat.max (depth p1) (depth p2)))%nat.
Proof.
  intros Hn H1 H2 Hr. destruct Hr; simpl; lia.
Qed.

Lemma simplify_shrinks (t : expr) :
  exists s,
    simplify t = Ok s /\
    (s = t \/ (size s < size t)%nat) /\
    (depth s <= depth t)%nat.
Proof.
  induction t as [ | i | p1 IH1 p2 IH2 | p1 IH1 p2 IH2
                 | p1 IH1 p2 IH2 | p1 IH1 p2 IH2 ].
  1, 2: eexists; split; [ reflexivity | split; [ now left | apply Nat.le_refl ] ].
  all: destruct IH1 as (s1 & S1 & Z1 & D1);
    destruct IH2 as (s2 & S2 & Z2 & D2);
    cbn [simplify]; rewrite S1, S2; cbn [bind].
  - destruct (Add_simplify_shape s1 s2) as (r & -> & Hr). exists r.
    split; [ reflexivity | ]. split.
    + now apply (rule_result_size p1 p2 s1 s2 (Add s1 s2) r Add).
    + now apply (rule_result_depth p1 p2 s1 s2 (Add s1 s2) r).
  - destruct (Mul_simplify_shape s1 s2) as (r & -> & Hr). exists r.
    split; [ reflexivity | ]. split.
    + now apply (rule_result_size p1 p2 s1 s2 (Mul s1 s2) r Mul).
    + now apply (rule_result_depth p1 p2 s1 s2 (Mul s1 s2) r).
  - destruct (Sub_simplify_shape s1 s2) as (r & -> & Hr). exists r.
    split; [ reflexivity | ]. split.
    + now apply (rule_result_size p1 p2 s1 s2 (Sub s1 s2) r Sub).
    + now apply (rule_result_depth p1 p2 s1 s2 (Sub s1 s2) r).
  - destruct (Div_simplify_shape s1 s2) as (r & -> & Hr). exists r.
    split; [ reflexivity | ]. split.
    + now apply (rule_result_size p1 p2 s1 s2 (Div s1 s2) r Div).
    + now apply (rule_result_depth p1 p2 s1 s2 (Div s1 s2) r).
Qed.

(** X2: [simplify] never grows a tree.  Its result is the input tree
    itself or has strictly fewer nodes, and its nesting depth is at most
    that of the input. *)
Theorem simplify_does_not_grow (t : expr) :
  exists s,
    simplify t = Ok s /\
    (s = t \/ (size s < size t)%nat) /\
    (size s <= size t)%nat /\
    (depth s <= depth t)%nat.
Proof.
  destruct (simplify_shrinks t) as (s & S & Z & D).
  exists s. repeat split; try assumption.
  destruct Z as [-> | Z]; lia.
Qed.

(** X3: the trees that [simplify] returns unchanged are exactly the trees
    in which no rewriting rule applies at any node. *)
Theorem simplify_fixed_iff_normal (t : expr) :
  simplify t = Ok t <-> normal t = true.
Proof.
  split.
  - intros H. destruct (simplify_normal t) as (s & S & N).
    rewrite H in S. injection S as <-. exact N.
  - apply normal_fixed.
Qed.

(** ** Trees without division *)

Lemma div_free_evaluates (t : expr) (x : Z) :
  div_free t = true -> exists i, evaluate t x = Ok (Int i).
Proof.
  induction t as [ | i | p1 IH1 p2 IH2 | p1 IH1 p2 IH2
                 | p1 IH1 p2 IH2 | p1 IH1 p2 IH2 ]; cbn [div_free];
    intros H; try discriminate H.
  1, 2: eexists; reflexivity.
  all: apply andb_true_iff in H; destruct H as [D1 D2];
    destruct (IH1 D1) as (v1 & H1); destruct (IH2 D2) as (v2 & H2);
    eexists.
  - exact (evaluate_Add_values _ _ _ _ _ H1 H2).
  - exact (evaluate_Mul_values _ _ _ _ _ H1 H2).
  - exact (evaluate_Sub_values _ _ _ _ _ H1 H2).
Qed.

Lemma rule_result_div_free (s1 s2 node r : expr) :
  div_free s1 = true -> div_free s2 = true -> div_free node = true ->
  rule_result s1 s2 node r -> div_free r = true.
Proof. intros D1 D2 Dn Hr; destruct Hr; auto. Qed.

Lemma simplify_div_free (t : expr) :
  div_free t = true -> exists s, simplify t = Ok s /\ div_free s = true.
Proof.
  induction t as [ | i | p1 IH1 p2 IH2 | p1 IH1 p2 IH2
                 | p1 IH1 p2 IH2 | p1 IH1 p2 IH2 ]; cbn [div_free];
    intros H; try discriminate H.
  1, 2: eexists; split; reflexivity.
  all: apply andb_true_iff in H; destruct H as [D1 D2];
    destruct (IH1 D1) as (s1 & S1 & F1); destruct (IH2 D2) as (s2 & S2 & F2);
    cbn [simplify]; rewrite S1, S2; cbn [bind].
  - destruct (Add_simplify_shape s1 s2) as (r & -> & Hr). exists r.
    split; [ reflexivity | ].
    apply (rule_result_div_free s1 s2 (Add s1 s2)); auto.
    cbn [div_free]. now rewrite F1, F2.
  - destruct (Mul_simplify_shape s1 s2) as (r & -> & Hr). exists r.
    split; [ reflexivity | ].
    apply (rule_result_div_free s1 s2 (Mul s1 s2)); auto.
    cbn [div_free]. now rewrite F1, F2.
  - destruct (Sub_simplify_shape s1 s2) as (r & -> & Hr). exists r.
    split; [ reflexivity | ].
    apply (rule_result_div_free s1 s2 (Sub s1 s2)); auto.
    cbn [div_free]. now rewrite F1, F2.
Qed.

(** X4: on a tree without [Div] nodes, [evaluate] returns an [Int] at
    every value of the variable, [simplify] returns a tree that again has
    no [Div] node, and the simplified tree evaluates to the same [Int] at
    every value. *)
Theorem div_free_simplify_equivalent (t : expr) :
  div_free t = true ->
  exists s,
    simplify t = Ok s /\ div_free s = true /\
    forall x, exists i,
      evaluate t x = Ok (Int i) /\ evaluate s x = Ok (Int i).
Proof.
  intros D.
  destruct (simplify_div_free t D) as (s & S & F).
  exists s. split; [ exact S | ]. split; [ exact F | ].
  intros x. destruct (div_free_evaluates t x D) as (i & E).
  exists i. split; [ exact E | ].
  destruct (simplify_sound t x _ E) as (s' & S' & E').
  rewrite S in S'. injection S' as <-. exact E'.
Qed.

Lemma div_free_simplify_equivalent_witness :
  exists s,
    simplify (Add (Mul X (Int 1)) (Sub (Int 5) (Int 2))) = Ok s /\
    div_free s = true /\
    forall x, exists i,
      evaluate (Add (Mul X (Int 1)) (Sub (Int 5) (Int 2))) x = Ok (Int i) /\
      evaluate s x = Ok (Int i).
Proof.
  apply (div_free_simplify_equivalent
           (Add (Mul X (Int 1)) (Sub (Int 5) (Int 2)))).
  reflexivity.
Defined.

(** ** Trees without the variable *)

Lemma var_free_evaluate_any (t : expr) (x y : Z) :
  var_free t = true -> evaluate t x = evaluate t y.
Proof.
  induction t as [ | i | p1 IH1 p2 IH2 | p1 IH1 p2 IH2
                 | p1 IH1 p2 IH2 | p1 IH1 p2 IH2 ]; cbn [var_free];
    intros H; try discriminate H.
  1: reflexivity.
  all: apply andb_true_iff in H; destruct H as [V1 V2];
    cbn [evaluate]; now rewrite (IH1 V1), (IH2 V2).
Qed.

Lemma Add_simplify_Int (i j : Z) :
  Add_simplify (Int i) (Int j) = Ok (Int (i + j)).
Proof.
  unfold Add_simplify; cbn [is_Int_eq].
  destruct (Z.eqb_spec i 0) as [-> | _]; [ reflexivity | ].
  destruct (Z.eqb_spec j 0) as [-> | _]; [ now rewrite Z.add_0_r | ].
  reflexivity.
Qed.

Lemma Sub_simplify_Int (i j : Z) :
  Sub_simplify (Int i) (Int j) = Ok (Int (i - j)).
Proof.
  unfold Sub_simplify; cbn [is_Int_eq].
  destruct (Z.eqb_spec j 0) as [-> | _]; [ now rewrite Z.sub_0_r | ].
  reflexivity.
Qed.

Lemma Mul_simplify_Int (i j : Z) :
  Mul_simplify (Int i) (Int j) = Ok (Int (i * j)).
Proof.
  unfold Mul_simplify; cbn [is_Int_eq].
  destruct (Z.eqb_spec i 0) as [-> | _]; [ reflexivity | ].
  destruct (Z.eqb_spec j 0) as [-> | _]; [ now rewrite Z.mul_0_r | ].
  cbn [orb].
  destruct (Z.eqb_spec i 1) as [-> | _]; [ now rewrite Z.mul_1_l | ].
  destruct (Z.eqb_spec j 1) as [-> | _]; [ now rewrite Z.mul_1_r | ].
  reflexivity.
Qed.

Lemma Div_simplify_Int (i j : Z) :
  j <> 0 -> Div_simplify (Int i) (Int j) = Ok (Int (i / j)).
Proof.
  intros N. unfold Div_simplify, floordiv; cbn [is_Int_eq].
  destruct (Z.eqb_spec j 0) as [E | _]; [ contradiction | ].
  destruct (Z.eqb_spec i 0) as [-> | _]; [ reflexivity | ].
  destruct (Z.eqb_spec j 1) as [-> | _]; [ now rewrite Z.div_1_r | ].
  reflexivity.
Qed.

Lemma var_free_folds (t : expr) (x : Z) (v : expr) :
  var_free t = true -> evaluate t x = Ok v -> simplify t = Ok v.
Proof.
  revert v.
  induction t as [ | i | p1 IH1 p2 IH2 | p1 IH1 p2 IH2
                 | p1 IH1 p2 IH2 | p1 IH1 p2 IH2 ]; cbn [var_free];
    intros v V H; try discriminate V.
  1: cbn in H; injection H as <-; reflexivity.
  all: apply andb_true_iff in V; destruct V as [V1 V2];
    destruct (evaluate_operands p1 p2 x v) as (va & vb & Ha & Hb);
    [ tauto | ];
    cbn [simplify]; rewrite (IH1 _ V1 Ha), (IH2 _ V2 Hb); cbn [bind].
  - rewrite (evaluate_Add_values _ _ _ _ _ Ha Hb) in H. injection H as <-.
    apply Add_simplify_Int.
  - rewrite (evaluate_Mul_values _ _ _ _ _ Ha Hb) in H. injection H as <-.
    apply Mul_simplify_Int.
  - rewrite (evaluate_Sub_values _ _ _ _ _ Ha Hb) in H. injection H as <-.
    apply Sub_simplify_Int.
  - destruct (Z.eq_dec vb 0) as [E | N].
    + rewrite (evaluate_Div_zero _ _ _ _ _ Ha Hb E) in H. discriminate H.
    + rewrite (evaluate_Div_values _ _ _ _ _ Ha Hb N) in H. injection H as <-.
      now apply Div_simplify_Int.
Qed.

(** X5: constant folding is complete.  A tree without [X] evaluates to the
    same outcome at every value of the variable, and when that outcome is a
    value, [simplify] returns exactly that [Int] constant. *)
Theorem var_free_constant_folding (t : expr) (x : Z) (v : expr) :
  var_free t = true ->
  evaluate t x = Ok v ->
  simplify t = Ok v /\ (exists i, v = Int i) /\
  forall y, evaluate t y = Ok v.
Proof.
  intros V H. split; [ now apply (var_free_folds t x) | ].
  split; [ now apply (evaluate_Ok_Int t x) | ].
  intros y. now rewrite (var_free_evaluate_any t y x V).
Qed.

Lemma var_free_constant_folding_witness :
  simplify (Div (Sub (Int 3) (Mul (Int 5) (Int 2))) (Add (Int 1) (Int 1)))
  = Ok (Int (-4)).
Proof.
  apply (var_free_constant_folding
           (Div (Sub (Int 3) (Mul (Int 5) (Int 2))) (Add (Int 1) (Int 1)))
           0 (Int (-4)));
    reflexivity.
Defined.

(** ** Neutral elements *)

Lemma Int_eq_cases (s : expr) (k : Z) :
  (s = Int k /\ is_Int_eq s k = true) \/ is_Int_eq s k = false.
Proof.
  destruct (is_Int_eq s k) eqn:E; [ left | now right ].
  split; [ now apply is_Int_eq_true | reflexivity ].
Qed.

Lemma neutral_rules (s : expr) :
  Add_simplify s (Int 0) = Ok s /\ Add_simplify (Int 0) s = Ok s /\
  Sub_simplify s (Int 0) = Ok s /\
  Mul_simplify s (Int 1) = Ok s /\ Mul_simplify (Int 1) s = Ok s /\
  Div_simplify s (Int 1) = Ok s.
Proof.
  unfold Add_simplify, Sub_simplify, Mul_simplify, Div_simplify.
  cbn [is_Int_eq Z.eqb orb].
  destruct (Int_eq_cases s 0) as [[-> _] | Z0].
  - repeat split; reflexivity.
  - rewrite Z0. cbn [orb].
    destruct (Int_eq_cases s 1) as [[-> _] | O1].
    + repeat split; reflexivity.
    + rewrite O1. repeat split; reflexivity.
Qed.

(** X6: the neutral elements are removed whatever the other operand is.
    Adding the constant 0 on either side, subtracting the constant 0,
    multiplying by the constant 1 on either side and dividing by the
    constant 1 all simplify to the simplification of the other operand. *)
Theorem simplify_neutral (a : expr) :
  simplify (Add a (Int 0)) = simplify a /\
  simplify (Add (Int 0) a) = simplify a /\
  simplify (Sub a (Int 0)) = simplify a /\
  simplify (Mul a (Int 1)) = simplify a /\
  simplify (Mul (Int 1) a) = simplify a /\
  simplify (Div a (Int 1)) = simplify a.
Proof.
  destruct (simplify_total a) as (s & S).
  cbn [simplify]; rewrite S; cbn [bind].
  apply neutral_rules.
Qed.

(** ** Rules need a constant operand *)

Lemma not_Int_not_eq (s : expr) (k : Z) :
  is_Int s = false -> is_Int_eq s k = false.
Proof. destruct s; simpl; intros H; try reflexivity; discriminate H. Qed.

Lemma not_Int_irreducible (s1 s2 : expr) :
  is_Int s1 = false -> is_Int s2 = false ->
  reducible (Add s1 s2) = false /\ reducible (Sub s1 s2) = false /\
  reducible (Mul s1 s2) = false /\ reducible (Div s1 s2) = false.
Proof.
  intros N1 N2. cbn [reducible].
  rewrite !(not_Int_not_eq s1), !(not_Int_not_eq s2), N1 by assumption.
  repeat split; reflexivity.
Qed.

(** X7: no rule fires unless an operand simplifies to a constant.  When
    both simplified operands are not [Int] objects, [simplify] rebuilds the
    node from them for each of the four operators; equal operands are not
    cancelled, so [a - a] and [a / a] stay as they are. *)
Theorem simplify_keeps_nonconstant (a b s1 s2 : expr) :
  simplify a = Ok s1 ->
  simplify b = Ok s2 ->
  is_Int s1 = false ->
  is_Int s2 = false ->
  simplify (Add a b) = Ok (Add s1 s2) /\
  simplify (Sub a b) = Ok (Sub s1 s2) /\
  simplify (Mul a b) = Ok (Mul s1 s2) /\
  simplify (Div a b) = Ok (Div s1 s2).
Proof.
  intros S1 S2 N1 N2.
  destruct (not_Int_irreducible s1 s2 N1 N2) as (RA & RS & RM & RD).
  cbn [simplify]; rewrite S1, S2; cbn [bind].
  auto using Add_simplify_irreducible, Sub_simplify_irreducible,
    Mul_simplify_irreducible, Div_simplify_irreducible.
Qed.

Lemma simplify_keeps_nonconstant_witness :
  simplify (Add (Mul X (Int 1)) (Add X (Int 0))) = Ok (Add X X) /\
  simplify (Sub (Mul X (Int 1)) (Add X (Int 0))) = Ok (Sub X X) /\
  simplify (Mul (Mul X (Int 1)) (Add X (Int 0))) = Ok (Mul X X) /\
  simplify (Div (Mul X (Int 1)) (Add X (Int 0))) = Ok (Div X X).
Proof.
  apply (simplify_keeps_nonconstant (Mul X (Int 1)) (Add X (Int 0)) X X);
    reflexivity.
Defined.

(** ** The zero-numerator rule *)

(** X8: a [Div] whose numerator simplifies to the constant 0 simplifies to
    the constant 0 unless the denominator simplifies to the constant 0 as
    well, so the result evaluates to 0 everywhere; yet the original node
    raises [ZeroDivisionError] at every value where its denominator
    evaluates to 0. *)
Theorem Div_zero_numerator (a b sb : expr) :
  simplify a = Ok (Int 0) ->
  simplify b = Ok sb ->
  sb <> Int 0 ->
  simplify (Div a b) = Ok (Int 0) /\
  (forall x, evaluate (Int 0) x = Ok (Int 0)) /\
  (forall x, evaluate b x = Ok (Int 0) ->
             evaluate (Div a b) x = Raise ZeroDivisionError).
Proof.
  intros Sa Sb N. split; [ | split ].
  - cbn [simplify]; rewrite Sa, Sb; cbn [bind].
    unfold Div_simplify; cbn [is_Int_eq Z.eqb].
    destruct (Int_eq_cases sb 0) as [[E _] | ->]; [ contradiction | ].
    reflexivity.
  - reflexivity.
  - intros x. apply evaluate_Div_zero_denominator.
Qed.

Lemma Div_zero_numerator_witness :
  simplify (Div (Sub (Int 1) (Int 1)) X) = Ok (Int 0) /\
  evaluate (Div (Sub (Int 1) (Int 1)) X) 0 = Raise ZeroDivisionError.
Proof.
  destruct (Div_zero_numerator (Sub (Int 1) (Int 1)) X X) as (Hs & _ & Hr);
    [ reflexivity | reflexivity | discriminate | ].
  split; [ exact Hs | ].
  apply Hr. reflexivity.
Defined.

(** * Further properties of [render] *)

(** ** Counting characters *)

Lemma occurrences_app (c : ascii) (s1 s2 : string) :
  occurrences c (s1 ++ s2) = (occurrences c s1 + occurrences c s2)%nat.
Proof.
  induction s1 as [ | d s1 IH ]; simpl; [ reflexivity | ].
  rewrite IH. lia.
Qed.

Lemma append_inj_l (p u v : string) : p ++ u = p ++ v -> u = v.
Proof.
  induction p as [ | c p IH ]; simpl; intros H; [ exact H | ].
  injection H as H. now apply IH.
Qed.

Lemma nesting_app (s1 s2 : string) :
  forall d,
    nesting (s1 ++ s2) d
    = match nesting s1 d with
      | Some d' => nesting s2 d'
      | None => None
      end.
Proof.
  induction s1 as [ | c s1 IH ]; intros d; simpl; [ reflexivity | ].
  destruct (Ascii.eqb c "("); [ apply IH | ].
  destruct (Ascii.eqb c ")"); [ | apply IH ].
  destruct d; [ reflexivity | apply IH ].
Qed.

(** The decimal digits of an integer contain no parenthesis. *)
Lemma nesting_uint (u : Decimal.uint) (d : nat) :
  nesting (NilEmpty.string_of_uint u) d = Some d.
Proof. induction u; simpl; auto. Qed.

Lemma nesting_str (i : Z) (d : nat) : nesting (str i) d = Some d.
Proof.
  unfold str, NilZero.string_of_int, NilZero.string_of_uint.
  destruct (Z.to_int i) as [u | u]; destruct u; simpl;
    auto using nesting_uint.
Qed.

Lemma nesting_wrapped (s : string) (d : nat) :
  nesting s (S d) = Some (S d) -> nesting ("( " ++ s ++ " )") d = Some d.
Proof.
  intros H. cbn [append nesting Ascii.eqb Bool.eqb].
  rewrite nesting_app, H. reflexivity.
Qed.

Lemma nesting_join (l r : string) (op : string) (d : nat) :
  nesting l d = Some d -> nesting op d = Some d -> nesting r d = Some d ->
  nesting (l ++ op ++ r) d = Some d.
Proof.
  intros Hl Hop Hr. now rewrite nesting_app, Hl, nesting_app, Hop.
Qed.

Lemma nesting_render (t : expr) :
  forall d, nesting (render t) d = Some d.
Proof.
  induction t as [ | i | p1 IH1 p2 IH2 | p1 IH1 p2 IH2
                 | p1 IH1 p2 IH2 | p1 IH1 p2 IH2 ]; intros d.
  - reflexivity.
  - apply nesting_str.
  - cbn [render]. apply nesting_join; auto.
  - cbn [render]. unfold fmt.
    apply nesting_join; [ | reflexivity | ];
      match goal with
      | |- context [ if ?c then _ else _ ] => destruct c
      end; auto using nesting_wrapped.
  - cbn [render]. cbv zeta.
    apply nesting_join; [ | reflexivity | ];
      match goal with
      | |- context [ if ?c then _ else _ ] => destruct c
      end; auto using nesting_wrapped.
  - cbn [render]. unfold fmt.
    apply nesting_join; [ | reflexivity | ];
      match goal with
      | |- context [ if ?c then _ else _ ] => destruct c
      end; auto using nesting_wrapped.
Qed.

Lemma nesting_counts (s : string) :
  forall d d',
    nesting s d = Some d' ->
    (d + occurrences "(" s = d' + occurrences ")" s)%nat.
Proof.
  induction s as [ | c s IH ]; intros d d'; cbn [nesting occurrences].
  - intros H; injection H as <-; reflexivity.
  - rewrite (Ascii.eqb_sym "(" c), (Ascii.eqb_sym ")" c).
    destruct (Ascii.eqb_spec c "(") as [-> | _].
    + intros H. apply IH in H. cbn [Ascii.eqb Bool.eqb]. lia.
    + destruct (Ascii.eqb_spec c ")") as [-> | _].
      * destruct d as [ | d ]; [ discriminate | ].
        intros H. apply IH in H. lia.
      * intros H. apply IH in H. lia.
Qed.

(** X9: the parentheses of a rendering are balanced.  Read from left to
    right, no closing parenthesis comes before its opening one and none is
    left open at the end; so there are as many opening as closing
    parentheses. *)
Theorem render_balanced (t : expr) :
  nesting (render t) 0 = Some 0%nat /\
  occurrences "(" (render t) = occurrences ")" (render t).
Proof.
  split; [ apply nesting_render | ].
  apply (nesting_counts (render t) 0 0), nesting_render.
Qed.

(** ** Nested subtraction and nested division *)

Lemma render_Sub_right_nested (a b c : expr) :
  render (Sub a (Sub b c))
  = paren (is_Add a) a ++ " - ( "
    ++ paren (is_Add b) b ++ " - " ++ paren (is_Add_or_Sub c) c ++ " )".
Proof.
  change (render (Sub a (Sub b c)))
    with (paren (is_Add a) a ++ " - ( "
          ++ (paren (is_Add b) b ++ " - " ++ paren (is_Add_or_Sub c) c)
          ++ " )").
  now rewrite !append_assoc.
Qed.

Lemma render_Sub_left_nested (a b c : expr) :
  render (Sub (Sub a b) c)
  = paren (is_Add a) a ++ " - "
    ++ paren (is_Add_or_Sub b) b ++ " - " ++ paren (is_Add_or_Sub c) c.
Proof.
  change (render (Sub (Sub a b) c))
    with ((paren (is_Add a) a ++ " - " ++ paren (is_Add_or_Sub b) b)
          ++ " - " ++ paren (is_Add_or_Sub c) c).
  now rewrite !append_assoc.
Qed.

Lemma Sub_groupings_differ (a b c : expr) :
  render (Sub a (Sub b c)) <> render (Sub (Sub a b) c).
Proof.
  rewrite render_Sub_right_nested, render_Sub_left_nested.
  intros H. apply append_inj_l in H.
  destruct b as [ | i | b1 b2 | b1 b2 | b1 b2 | b1 b2 ].
  5: { (* [b] is a [Sub]: wrapped on the right only *)
    cbn [is_Add is_Add_or_Sub paren] in H.
    change (" - ( " ++ render (Sub b1 b2) ++ " - "
            ++ paren (is_Add_or_Sub c) c ++ " )")
      with (" - ( " ++ (render (Sub b1 b2) ++ " - "
                        ++ paren (is_Add_or_Sub c) c ++ " )")) in H.
    change (" - " ++ ("( " ++ render (Sub b1 b2) ++ " )") ++ " - "
            ++ paren (is_Add_or_Sub c) c)
      with (" - ( " ++ ((render (Sub b1 b2) ++ " )") ++ " - "
                        ++ paren (is_Add_or_Sub c) c)) in H.
    apply append_inj_l in H.
    rewrite append_assoc in H. apply append_inj_l in H.
    discriminate H. }
  (* otherwise [b] is wrapped on both sides or on neither: the opening
     parentheses differ in number *)
  all: apply (f_equal (occurrences "(")) in H;
    cbn [is_Add is_Add_or_Sub] in H;
    rewrite !occurrences_app in H; cbn [occurrences Ascii.eqb Bool.eqb] in H;
    lia.
Qed.

(** X10: [Sub.__repr__] keeps the two groupings of a repeated subtraction
    apart, [Div.__repr__] does not.  For all operands, [a - (b - c)] and
    [(a - b) - c] have different renderings, while [a / (b / c)] and
    [(a / b) / c] have the same one, although their values can differ:
    8 / (4 / 2) is 4 and (8 / 4) / 2 is 1. *)
Theorem render_nested_Sub_Div :
  (forall a b c : expr,
      render (Sub a (Sub b c)) <> render (Sub (Sub a b) c)) /\
  (forall a b c : expr,
      render (Div a (Div b c)) = render (Div (Div a b) c)) /\
  (forall x : Z,
      evaluate (Div (Int 8) (Div (Int 4) (Int 2))) x = Ok (Int 4) /\
      evaluate (Div (Div (Int 8) (Int 4)) (Int 2)) x = Ok (Int 1)).
Proof.
  split; [ exact Sub_groupings_differ | ].
  split.
  - intros a b c.
    change (render (Div a (Div b c)))
      with (fmt render a ++ " / " ++ (fmt render b ++ " / " ++ fmt render c)).
    change (render (Div (Div a b) c))
      with ((fmt render a ++ " / " ++ fmt render b) ++ " / " ++ fmt render c).
    now rewrite !append_assoc.
  - intros x; split; reflexivity.
Qed.

(** * Further properties of [evaluate] on the object store *)

Lemma new_Int_runs_counting (i : Z) (h : heap) :
  runs_counting (new_Int i) h (Ok (Int i)) 1.
Proof.
  exists [OInt i], (Ok (List.length h)).
  split; [ reflexivity | ].
  split; [ exists i; split; [ reflexivity | apply nth_error_snoc ] | ].
  split; [ repeat constructor | ].
  split; [ reflexivity | ].
  rewrite length_app. simpl. lia.
Qed.

Section OperandsCounting.
Variables (a b : expr) (n : nat) (x : Z).
Variable k : addr -> addr -> M addr.
Hypothesis IHa :
  forall h l, rep h l a ->
    runs_counting (evaluate_in n l x) h (evaluate a x) (size a).
Hypothesis IHb :
  forall h l, rep h l b ->
    runs_counting (evaluate_in n l x) h (evaluate b x) (size b).

Lemma call_operands_count (h : heap) (la lb : addr) :
  rep h la a -> rep h lb b ->
  match evaluate a x, evaluate b x with
  | Raise e, _ =>
      exists hn,
        (v1 <~ evaluate_in n la x ;; v2 <~ evaluate_in n lb x ;; k v1 v2) h
        = Some ((h ++ hn)%list, Raise e) /\
        Forall (fun o => is_OInt o = true) hn /\
        (List.length hn < size a + size b)%nat
  | Ok _, Raise e =>
      exists hn,
        (v1 <~ evaluate_in n la x ;; v2 <~ evaluate_in n lb x ;; k v1 v2) h
        = Some ((h ++ hn)%list, Raise e) /\
        Forall (fun o => is_OInt o = true) hn /\
        (List.length hn < size a + size b)%nat
  | Ok v1, Ok v2 =>
      exists hn l1 l2 i1 i2,
        v1 = Int i1 /\ v2 = Int i2 /\
        nth_error (h ++ hn)%list l1 = Some (OInt i1) /\
        nth_error (h ++ hn)%list l2 = Some (OInt i2) /\
        Forall (fun o => is_OInt o = true) hn /\
        List.length hn = (size a + size b)%nat /\
        (v1 <~ evaluate_in n la x ;; v2 <~ evaluate_in n lb x ;; k v1 v2) h
        = k l1 l2 (h ++ hn)%list
  end.
Proof.
  intros Ra Rb. unfold mbind.
  destruct (IHa h la Ra) as (hn1 & r1 & E1 & A1 & F1 & C1). rewrite E1.
  unfold agrees in A1.
  destruct (evaluate a x) as [v1 | e]; destruct r1 as [l1 | e1];
    try contradiction.
  2: { subst e1. exists hn1. repeat split; [ assumption | lia ]. }
  destruct A1 as (i1 & -> & L1). destruct C1 as [C1 _].
  destruct (IHb _ lb (rep_app b h hn1 lb Rb))
    as (hn2 & r2 & E2 & A2 & F2 & C2).
  rewrite E2. unfold agrees in A2.
  destruct (evaluate b x) as [v2 | e]; destruct r2 as [l2 | e2];
    try contradiction.
  2: { subst e2. exists (hn1 ++ hn2)%list. rewrite app_assoc.
       repeat split.
       - now apply Forall_app.
       - rewrite length_app. lia. }
  destruct A2 as (i2 & -> & L2). destruct C2 as [C2 _].
  exists (hn1 ++ hn2)%list, l1, l2, i1, i2.
  rewrite app_assoc.
  repeat split; auto using nth_error_app_Some.
  - now apply Forall_app.
  - rewrite length_app. lia.
Qed.
End OperandsCounting.

(** Closes the case of a raising operand, with the count. *)
Ltac operand_raised_count C :=
  let hn := fresh "hn" in
  let F := fresh "F" in
  let L := fresh "L" in
  destruct C as (hn & -> & F & L); exists hn; eexists;
  split; [ reflexivity | ];
  split; [ reflexivity | ];
  split; [ exact F | lia ].

(** Closes the case of a node that returns a new [Int]. *)
Ltac returns_new_Int hn F Len v :=
  exists (hn ++ [OInt v])%list; eexists;
  rewrite app_assoc;
  split; [ reflexivity | ];
  split; [ exists v; split; [ reflexivity | apply nth_error_snoc ] | ];
  split; [ apply Forall_app; split; [ exact F | repeat constructor ] | ];
  rewrite !length_app; simpl; lia.

Lemma evaluate_in_counts (t : expr) :
  forall (fuel : nat) (h : heap) (l : addr) (x : Z),
    rep h l t -> (depth t <= fuel)%nat ->
    runs_counting (evaluate_in fuel l x) h (evaluate t x) (size t).
Proof.
  induction t as [ | i | a IHa b IHb | a IHa b IHb
                 | a IHa b IHb | a IHa b IHb ];
    intros fuel h l x R F;
    (destruct fuel as [ | n ]; [ simpl in F; lia | ]);
    cbn [evaluate_in rep depth size] in *.
  1, 2: unfold runs_counting; rewrite R; apply new_Int_runs_counting.
  all: destruct R as (la & lb & Hl & Ra & Rb);
    unfold runs_counting; rewrite Hl;
    assert (IHa' : forall h l, rep h l a ->
              runs_counting (evaluate_in n l x) h (evaluate a x) (size a))
      by (intros; apply IHa; [ assumption | lia ]);
    assert (IHb' : forall h l, rep h l b ->
              runs_counting (evaluate_in n l x) h (evaluate b x) (size b))
      by (intros; apply IHb; [ assumption | lia ]);
    match goal with
    | |- context [ mbind _ (fun v1 => mbind _ (fun v2 => @?k v1 v2)) ?h0 ] =>
        pose proof (call_operands_count a b n x k IHa' IHb' h0 la lb Ra Rb)
          as C
    end;
    cbv beta in C; cbn [evaluate];
    (destruct (evaluate a x) as [va | ea]; [ | operand_raised_count C ]);
    (destruct (evaluate b x) as [vb | eb]; [ | operand_raised_count C ]);
    destruct C as (hn & l1 & l2 & i1 & i2 & -> & -> & L1 & L2 & Fa & Len & ->);
    cbn [get_i bind]; unfold mbind, attr_i; rewrite ?L1, ?L2.
  - returns_new_Int hn Fa Len (i1 + i2).
  - returns_new_Int hn Fa Len (i1 * i2).
  - returns_new_Int hn Fa Len (i1 - i2).
  - unfold mraise.
    destruct (i2 =? 0) eqn:Z2.
    + exists hn. eexists.
      split; [ reflexivity | ].
      split; [ reflexivity | ].
      split; [ exact Fa | lia ].
    + rewrite ?L1, ?L2. unfold mfloordiv, floordiv. rewrite Z2. cbn [bind].
      returns_new_Int hn Fa Len (i1 / i2).
Qed.

(** X11: what a call of [evaluate] allocates.  With enough recursion
    budget for the tree, a call that returns has created exactly one [Int]
    object per node of the tree and nothing else, and the object returned
    is the last one created, hence never an object of the input, not even
    for an [Int] leaf; a call that raises has created fewer [Int] objects
    and nothing else. *)
Theorem evaluate_in_allocates (t : expr) (x : Z) (fuel : nat) (h : heap)
    (l : addr) :
  rep h l t -> (depth t <= fuel)%nat ->
  exists (hn : heap) (r : result addr),
    evaluate_in fuel l x h = Some ((h ++ hn)%list, r) /\
    agrees (h ++ hn)%list r (evaluate t x) /\
    Forall (fun o => is_OInt o = true) hn /\
    match r with
    | Ok l' =>
        List.length hn = size t /\
        S l' = (List.length h + size t)%nat /\
        (List.length h <= l')%nat
    | Raise _ => (List.length hn < size t)%nat
    end.
Proof.
  intros R F.
  destruct (evaluate_in_counts t fuel h l x R F) as (hn & r & E & A & Fa & C).
  exists hn, r. repeat split; try assumption.
  destruct r as [l' | e]; [ | exact C ].
  destruct C as [Len Last]. rewrite length_app in Last.
  pose proof (size_pos t). repeat split; lia.
Qed.

Lemma evaluate_in_allocates_witness :
  exists (hn : heap) (r : result addr),
    evaluate_in 2 2%nat 4 [OX; OInt 3; OSub 0%nat 1%nat]
    = Some (([OX; OInt 3; OSub 0%nat 1%nat] ++ hn)%list, r) /\
    agrees ([OX; OInt 3; OSub 0%nat 1%nat] ++ hn)%list r
      (evaluate (Sub X (Int 3)) 4) /\
    Forall (fun o => is_OInt o = true) hn /\
    match r with
    | Ok l' =>
        List.length hn = size (Sub X (Int 3)) /\
        S l' = (List.length [OX; OInt 3; OSub 0%nat 1%nat]
                + size (Sub X (Int 3)))%nat /\
        (List.length [OX; OInt 3; OSub 0%nat 1%nat] <= l')%nat
    | Raise _ => (List.length hn < size (Sub X (Int 3)))%nat
    end.
Proof.
  apply (evaluate_in_allocates (Sub X (Int 3)) 4 2%nat
           [OX; OInt 3; OSub 0%nat 1%nat] 2%nat).
  - exists 0%nat, 1%nat. repeat split.
  - apply Nat.le_refl.
Defined.

(** * [simplify] on the object store *)

(** ** Reading a denoted tree *)

Lemma is_Int_at_rep (h : heap) (l : addr) (s : expr) :
  rep h l s -> is_Int_at l h = Some (h, Ok (is_Int s)).
Proof.
  unfold is_Int_at.
  destruct s; cbn [rep is_Int];
    [ intros -> | intros -> | intros (la & lb & -> & _) ..]; reflexivity.
Qed.

Lemma attr_i_rep (h : heap) (l : addr) (i : Z) :
  rep h l (Int i) -> attr_i l h = Some (h, Ok i).
Proof. unfold attr_i; cbn [rep]; intros ->; reflexivity. Qed.

Lemma is_Int_eq_at_rep (h : heap) (l : addr) (s : expr) (k : Z) :
  rep h l s -> is_Int_eq_at l k h = Some (h, Ok (is_Int_eq s k)).
Proof.
  intros R. unfold is_Int_eq_at, mbind.
  rewrite (is_Int_at_rep h l s R).
  destruct s; cbn [is_Int is_Int_eq]; try reflexivity.
  now rewrite (attr_i_rep h l i R).
Qed.

Lemma both_Int_at_rep (h : heap) (l1 l2 : addr) (s1 s2 : expr) :
  rep h l1 s1 -> rep h l2 s2 ->
  both_Int_at l1 l2 h = Some (h, Ok (is_Int s1 && is_Int s2)).
Proof.
  intros R1 R2. unfold both_Int_at, mbind.
  rewrite (is_Int_at_rep h l1 s1 R1).
  destruct (is_Int s1); cbn [andb]; [ | reflexivity ].
  apply (is_Int_at_rep h l2 s2 R2).
Qed.

(** ** What a rule returns on the store *)

Lemma returns_ret (h : heap) (l : addr) (r : expr) (k : nat) :
  rep h l r -> returns_tree (mret l) h r k.
Proof.
  intros R. exists [], l. rewrite app_nil_r.
  repeat split; [ exact R | simpl; lia ].
Qed.

Lemma returns_new_Int (h : heap) (i : Z) :
  returns_tree (new_Int i) h (Int i) 1.
Proof.
  exists [OInt i], (List.length h).
  repeat split; [ apply nth_error_snoc | simpl; lia ].
Qed.

Lemma returns_new_node (h : heap) (l1 l2 : addr) (s1 s2 : expr) :
  rep h l1 s1 -> rep h l2 s2 ->
  returns_tree (new_obj (OAdd l1 l2)) h (Add s1 s2) 1 /\
  returns_tree (new_obj (OMul l1 l2)) h (Mul s1 s2) 1 /\
  returns_tree (new_obj (OSub l1 l2)) h (Sub s1 s2) 1 /\
  returns_tree (new_obj (ODiv l1 l2)) h (Div s1 s2) 1.
Proof.
  intros R1 R2.
  repeat split; eexists [_], (List.length h);
    (split; [ reflexivity | ]);
    (split; [ | simpl; lia ]);
    exists l1, l2; auto using nth_error_snoc, rep_app.
Qed.

(** Runs one test of a rule on operands that denote [s1] and [s2]. *)
Ltac run_test R1 R2 :=
  unfold mbind; cbv beta;
  first [ rewrite (is_Int_eq_at_rep _ _ _ _ R1)
        | rewrite (is_Int_eq_at_rep _ _ _ _ R2)
        | rewrite (both_Int_at_rep _ _ _ _ _ R1 R2) ];
  cbv beta iota.

Section RulesOnStore.
Variables (h : heap) (l1 l2 : addr).

Lemma Add_simplify_at_returns (s1 s2 : expr) :
  rep h l1 s1 -> rep h l2 s2 ->
  exists r,
    Add_simplify s1 s2 = Ok r /\ returns_tree (Add_simplify_at l1 l2) h r 1.
Proof.
  intros R1 R2.
  destruct (returns_new_node h l1 l2 s1 s2 R1 R2) as (NA & _).
  unfold Add_simplify, Add_simplify_at, returns_tree in *.
  run_test R1 R2.
  destruct (is_Int_eq s1 0).
  { eexists; split; [ reflexivity | now apply returns_ret ]. }
  run_test R2 R2.
  destruct (is_Int_eq s2 0).
  { eexists; split; [ reflexivity | now apply returns_ret ]. }
  run_test R1 R2.
  both_Int s1 s2; cbn [andb].
  - rewrite (attr_i_rep _ _ _ R1), (attr_i_rep _ _ _ R2).
    eexists; split; [ reflexivity | apply returns_new_Int ].
  - eexists; split; [ reflexivity | exact NA ].
Qed.

Lemma Sub_simplify_at_returns (s1 s2 : expr) :
  rep h l1 s1 -> rep h l2 s2 ->
  exists r,
    Sub_simplify s1 s2 = Ok r /\ returns_tree (Sub_simplify_at l1 l2) h r 1.
Proof.
  intros R1 R2.
  destruct (returns_new_node h l1 l2 s1 s2 R1 R2) as (_ & _ & NS & _).
  unfold Sub_simplify, Sub_simplify_at, returns_tree in *.
  run_test R2 R2.
  destruct (is_Int_eq s2 0).
  { eexists; split; [ reflexivity | now apply returns_ret ]. }
  run_test R1 R2.
  both_Int s1 s2; cbn [andb].
  - rewrite (attr_i_rep _ _ _ R1), (attr_i_rep _ _ _ R2).
    eexists; split; [ reflexivity | apply returns_new_Int ].
  - eexists; split; [ reflexivity | exact NS ].
Qed.

Lemma Mul_simplify_at_returns (s1 s2 : expr) :
  rep h l1 s1 -> rep h l2 s2 ->
  exists r,
    Mul_simplify s1 s2 = Ok r /\ returns_tree (Mul_simplify_at l1 l2) h r 1.
Proof.
  intros R1 R2.
  destruct (returns_new_node h l1 l2 s1 s2 R1 R2) as (_ & NM & _).
  unfold Mul_simplify, Mul_simplify_at, returns_tree in *.
  run_test R1 R2.
  assert (Z : (if is_Int_eq s1 0 then mret true else is_Int_eq_at l2 0) h
              = Some (h, Ok (is_Int_eq s1 0 || is_Int_eq s2 0))).
  { destruct (is_Int_eq s1 0); [ reflexivity | ].
    apply (is_Int_eq_at_rep _ _ _ _ R2). }
  rewrite Z; cbv beta iota.
  destruct (is_Int_eq s1 0 || is_Int_eq s2 0).
  { eexists; split; [ reflexivity | apply returns_new_Int ]. }
  run_test R1 R2.
  destruct (is_Int_eq s1 1).
  { eexists; split; [ reflexivity | now apply returns_ret ]. }
  run_test R2 R2.
  destruct (is_Int_eq s2 1).
  { eexists; split; [ reflexivity | now apply returns_ret ]. }
  run_test R1 R2.
  both_Int s1 s2; cbn [andb].
  - rewrite (attr_i_rep _ _ _ R1), (attr_i_rep _ _ _ R2).
    eexists; split; [ reflexivity | apply returns_new_Int ].
  - eexists; split; [ reflexivity | exact NM ].
Qed.

Lemma Div_simplify_at_returns (s1 s2 : expr) :
  rep h l1 s1 -> rep h l2 s2 ->
  exists r,
    Div_simplify s1 s2 = Ok r /\ returns_tree (Div_simplify_at l1 l2) h r 1.
Proof.
  intros R1 R2.
  destruct (returns_new_node h l1 l2 s1 s2 R1 R2) as (_ & _ & _ & ND).
  unfold Div_simplify, Div_simplify_at, returns_tree in *.
  run_test R1 R2.
  destruct (is_Int_eq s1 0).
  { run_test R2 R2.
    destruct (is_Int_eq s2 0).
    - eexists; split; [ reflexivity | exact ND ].
    - eexists; split; [ reflexivity | apply returns_new_Int ]. }
  run_test R2 R2.
  destruct (is_Int_eq s2 1).
  { eexists; split; [ reflexivity | now apply returns_ret ]. }
  run_test R1 R2.
  both_Int s1 s2; cbn [andb].
  - rewrite (attr_i_rep _ _ _ R2); cbv beta iota.
    unfold mfloordiv, floordiv.
    destruct (i0 =? 0) eqn:Z2.
    + eexists; split; [ reflexivity | exact ND ].
    + rewrite (attr_i_rep _ _ _ R1), (attr_i_rep _ _ _ R2), Z2.
      eexists; split; [ reflexivity | apply returns_new_Int ].
  - eexists; split; [ reflexivity | exact ND ].
Qed.
End RulesOnStore.

(** ** The whole traversal *)

Section NodeOnStore.
Variables (a b : expr) (n : nat).
Hypothesis IHa :
  forall h l, rep h l a ->
    exists s, simplify a = Ok s /\
              returns_tree (simplify_in n l) h s (size a - 1).
Hypothesis IHb :
  forall h l, rep h l b ->
    exists s, simplify b = Ok s /\
              returns_tree (simplify_in n l) h s (size b - 1).
Variables (rule : expr -> expr -> result expr).
Variables (rule_at : addr -> addr -> M addr).
Hypothesis rule_returns :
  forall h l1 l2 s1 s2, rep h l1 s1 -> rep h l2 s2 ->
    exists r, rule s1 s2 = Ok r /\ returns_tree (rule_at l1 l2) h r 1.

Lemma node_on_store (h : heap) (la lb : addr) :
  rep h la a -> rep h lb b ->
  exists s,
    (s1 <- simplify a ;; s2 <- simplify b ;; rule s1 s2) = Ok s /\
    returns_tree
      (s1 <~ simplify_in n la ;; s2 <~ simplify_in n lb ;; rule_at s1 s2)
      h s (size a + size b).
Proof.
  intros Ra Rb.
  destruct (IHa h la Ra) as (sa & Sa & Ta).
  destruct (IHb h lb Rb) as (sb & Sb & _).
  destruct Ta as (hn1 & l1 & E1 & R1 & K1).
  destruct (IHb _ lb (rep_app b h hn1 lb Rb)) as (sb' & Sb' & Tb).
  rewrite Sb in Sb'. injection Sb' as <-.
  destruct Tb as (hn2 & l2 & E2 & R2 & K2).
  destruct (rule_returns _ l1 l2 sa sb (rep_app sa _ hn2 l1 R1) R2)
    as (r & Hr & hn3 & l3 & E3 & R3 & K3).
  exists r. rewrite Sa, Sb. cbn [bind]. split; [ exact Hr | ].
  exists (hn1 ++ hn2 ++ hn3)%list, l3.
  unfold mbind. rewrite E1, E2, E3.
  rewrite !app_assoc.
  repeat split; [ exact R3 | ].
  pose proof (size_pos a). pose proof (size_pos b).
  rewrite !length_app. lia.
Qed.
End NodeOnStore.

Lemma simplify_in_returns (t : expr) :
  forall (fuel : nat) (h : heap) (l : addr),
    rep h l t -> (depth t <= fuel)%nat ->
    exists s,
      simplify t = Ok s /\
      returns_tree (simplify_in fuel l) h s (size t - 1).
Proof.
  induction t as [ | i | a IHa b IHb | a IHa b IHb
                 | a IHa b IHb | a IHa b IHb ];
    intros fuel h l R F;
    (destruct fuel as [ | n ]; [ simpl in F; lia | ]);
    cbn [rep depth size] in *.
  1, 2: eexists; split; [ reflexivity | ];
    unfold returns_tree; cbn [simplify_in]; rewrite R;
    now apply returns_ret.
  all: destruct R as (la & lb & Hl & Ra & Rb);
    assert (IHa' : forall h l, rep h l a ->
              exists s, simplify a = Ok s /\
                        returns_tree (simplify_in n l) h s (size a - 1))
      by (intros; apply IHa; [ assumption | lia ]);
    assert (IHb' : forall h l, rep h l b ->
              exists s, simplify b = Ok s /\
                        returns_tree (simplify_in n l) h s (size b - 1))
      by (intros; apply IHb; [ assumption | lia ]);
    replace (S (size a + size b) - 1)%nat with (size a + size b)%nat by lia;
    unfold returns_tree; cbn [simplify_in simplify]; rewrite Hl.
  - apply (node_on_store a b n IHa' IHb' Add_simplify Add_simplify_at
             Add_simplify_at_returns h la lb Ra Rb).
  - apply (node_on_store a b n IHa' IHb' Mul_simplify Mul_simplify_at
             Mul_simplify_at_returns h la lb Ra Rb).
  - apply (node_on_store a b n IHa' IHb' Sub_simplify Sub_simplify_at
             Sub_simplify_at_returns h la lb Ra Rb).
  - apply (node_on_store a b n IHa' IHb' Div_simplify Div_simplify_at
             Div_simplify_at_returns h la lb Ra Rb).
Qed.

Lemma simplify_in_leaf (t : expr) (fuel : nat) (h h' : heap) (l : addr)
    (r : result addr) :
  t = X \/ (exists i, t = Int i) ->
  rep h l t ->
  simplify_in fuel l h = Some (h', r) ->
  h' = h /\ r = Ok l.
Proof.
  intros Ht R E.
  destruct fuel as [ | n ]; [ discriminate E | ].
  cbn [simplify_in] in E.
  destruct Ht as [-> | [i ->]]; cbn [rep] in R; rewrite R in E;
    injection E as <- <-; split; reflexivity.
Qed.

(** X12: [simplify] on a store of objects.  With enough recursion budget
    for the tree, the call returns a reference that denotes the tree the
    pure [simplify] returns; it never raises; every object that existed
    before the call is unchanged and the reference passed in still denotes
    the input tree; it creates fewer objects than the tree has nodes; and
    on a leaf it creates none and returns the very reference it was given. *)
Theorem simplify_in_preserves (t : expr) (fuel : nat) (h : heap) (l : addr) :
  rep h l t -> (depth t <= fuel)%nat ->
  exists (hn : heap) (l' : addr) (s : expr),
    simplify_in fuel l h = Some ((h ++ hn)%list, Ok l') /\
    simplify t = Ok s /\
    rep (h ++ hn)%list l' s /\
    rep (h ++ hn)%list l t /\
    (forall l0 o, nth_error h l0 = Some o ->
                  nth_error (h ++ hn)%list l0 = Some o) /\
    (List.length hn < size t)%nat /\
    (t = X \/ (exists i, t = Int i) -> hn = [] /\ l' = l).
Proof.
  intros R F.
  destruct (simplify_in_returns t fuel h l R F)
    as (s & S & hn & l' & E & R' & K).
  exists hn, l', s.
  pose proof (size_pos t) as P.
  split; [ exact E | ]. split; [ exact S | ]. split; [ exact R' | ].
  split; [ now apply rep_app | ].
  split; [ intros l0 o; apply nth_error_app_Some | ].
  split; [ lia | ].
  intros Leaf.
  destruct (simplify_in_leaf t fuel h _ l _ Leaf R E) as [Eh Er].
  split.
  - rewrite <- (app_nil_r h) in Eh at 2.
    now apply app_inv_head in Eh.
  - now injection Er.
Qed.

Lemma simplify_in_preserves_witness :
  exists (hn : heap) (l' : addr) (s : expr),
    simplify_in 2 2%nat [OX; OInt 0; OAdd 0%nat 1%nat]
    = Some (([OX; OInt 0; OAdd 0%nat 1%nat] ++ hn)%list, Ok l') /\
    simplify (Add X (Int 0)) = Ok s /\
    rep ([OX; OInt 0; OAdd 0%nat 1%nat] ++ hn)%list l' s /\
    rep ([OX; OInt 0; OAdd 0%nat 1%nat] ++ hn)%list 2%nat (Add X (Int 0)) /\
    (forall l0 o,
        nth_error [OX; OInt 0; OAdd 0%nat 1%nat] l0 = Some o ->
        nth_error ([OX; OInt 0; OAdd 0%nat 1%nat] ++ hn)%list l0 = Some o) /\
    (List.length hn < size (Add X (Int 0)))%nat /\
    (Add X (Int 0) = X \/ (exists i, Add X (Int 0) = Int i) ->
     hn = [] /\ l' = 2%nat).
Proof.
  apply (simplify_in_preserves (Add X (Int 0)) 2%nat
           [OX; OInt 0; OAdd 0%nat 1%nat] 2%nat).
  - exists 0%nat, 1%nat. repeat split.
  - apply Nat.le_refl.
Defined.

(** * Variable-free trees after simplification *)

Lemma rule_result_var_free (s1 s2 node r : expr) :
  var_free s1 = true -> var_free s2 = true -> var_free node = true ->
  rule_result s1 s2 node r -> var_free r = true.
Proof. intros V1 V2 Vn Hr; destruct Hr; auto. Qed.

Lemma simplify_var_free (t : expr) :
  var_free t = true -> exists s, simplify t = Ok s /\ var_free s = true.
Proof.
  induction t as [ | i | p1 IH1 p2 IH2 | p1 IH1 p2 IH2
                 | p1 IH1 p2 IH2 | p1 IH1 p2 IH2 ]; cbn [var_free];
    intros H; try discriminate H.
  1: eexists; split; reflexivity.
  all: apply andb_true_iff in H; destruct H as [V1 V2];
    destruct (IH1 V1) as (s1 & S1 & F1); destruct (IH2 V2) as (s2 & S2 & F2);
    cbn [simplify]; rewrite S1, S2; cbn [bind].
  - destruct (Add_simplify_shape s1 s2) as (r & -> & Hr). exists r.
    split; [ reflexivity | ].
    apply (rule_result_var_free s1 s2 (Add s1 s2)); auto.
    cbn [var_free]. now rewrite F1, F2.
  - destruct (Mul_simplify_shape s1 s2) as (r & -> & Hr). exists r.
    split; [ reflexivity | ].
    apply (rule_result_var_free s1 s2 (Mul s1 s2)); auto.
    cbn [var_free]. now rewrite F1, F2.
  - destruct (Sub_simplify_shape s1 s2) as (r & -> & Hr). exists r.
    split; [ reflexivity | ].
    apply (rule_result_var_free s1 s2 (Sub s1 s2)); auto.
    cbn [var_free]. now rewrite F1, F2.
  - destruct (Div_simplify_shape s1 s2) as (r & -> & Hr). exists r.
    split; [ reflexivity | ].
    apply (rule_result_var_free s1 s2 (Div s1 s2)); auto.
    cbn [var_free]. now rewrite F1, F2.
Qed.

(** A reduced tree without the variable is a constant or raises. *)
Lemma var_free_normal_raises (s : expr) (x : Z) :
  var_free s = true -> normal s = true ->
  is_Int s = true \/ evaluate s x = Raise ZeroDivisionError.
Proof.
  induction s as [ | i | p1 IH1 p2 IH2 | p1 IH1 p2 IH2
                 | p1 IH1 p2 IH2 | p1 IH1 p2 IH2 ]; intros V N;
    cbn [var_free] in V; try discriminate V.
  1: now left.
  all: right;
    pose proof (normal_node _ N) as R;
    cbn [normal] in N;
    apply andb_true_iff in N; destruct N as [N N2];
    apply andb_true_iff in N; destruct N as [_ N1];
    apply andb_true_iff in V; destruct V as [V1 V2];
    destruct (IH1 V1 N1) as [C1 | F1];
    [ | now apply evaluate_raise_left ];
    apply is_Int_true in C1; destruct C1 as [i1 ->];
    destruct (IH2 V2 N2) as [C2 | F2];
    [ | now apply (evaluate_raise_right (Int i1) p2 x i1) ];
    apply is_Int_true in C2; destruct C2 as [i2 ->].
  1, 2, 3: cbn [reducible is_Int andb] in R;
    rewrite ?orb_true_r in R; discriminate R.
  destruct (irreducible_all_constant (Div (Int i1) (Int i2)) R eq_refl)
    as (j & E).
  injection E as _ ->. reflexivity.
Qed.

(** X13: a tree without [X] simplifies to a tree without [X] that is
    either a single [Int] constant or raises [ZeroDivisionError] at every
    value of the variable. *)
Theorem var_free_simplify_outcome (t : expr) :
  var_free t = true ->
  exists s,
    simplify t = Ok s /\ var_free s = true /\
    ((exists i, s = Int i) \/
     forall x, evaluate s x = Raise ZeroDivisionError).
Proof.
  intros V.
  destruct (simplify_var_free t V) as (s & S & Vs).
  destruct (simplify_normal t) as (s' & S' & N).
  rewrite S in S'. injection S' as <-.
  exists s. split; [ exact S | ]. split; [ exact Vs | ].
  destruct (is_Int s) eqn:C.
  - left. now apply is_Int_true.
  - right. intros x.
    destruct (var_free_normal_raises s x Vs N) as [C' | F];
      [ congruence | exact F ].
Qed.

Lemma var_free_simplify_outcome_witness :
  exists s,
    simplify (Add (Int 1) (Div (Int 2) (Sub (Int 3) (Int 3)))) = Ok s /\
    var_free s = true /\
    ((exists i, s = Int i) \/
     forall x, evaluate s x = Raise ZeroDivisionError).
Proof.
  apply (var_free_simplify_outcome
           (Add (Int 1) (Div (Int 2) (Sub (Int 3) (Int 3))))).
  reflexivity.
Defined.
